(** * LMStudio WebClient: session store and table-aware message renderer

    A shallow embedding of [src/src/main.ts] (settings, session store,
    sending) and of the renderer [renderMessageContentWithTables]
    (markdownTableRenderer, [src/unnamed/part_000]).

    JavaScript strings are sequences of UTF-16 code units; we model them as
    [list Z].  The regular expressions of the source are written out as the
    scanners a global [String.prototype.replace] performs. *)

From Stdlib Require Import List ZArith Bool Ascii String Lia.
Set Warnings "-register-all".
From Stdlib Require Import Sorting.Permutation Sorting.Sorted.
Import ListNotations.
Open Scope Z_scope.

(* ------------------------------------------------------------------ *)
(** ** JavaScript strings *)

Definition jsstr := list Z.

(** String literals (ASCII) as code units. *)
Fixpoint u (s : string) : jsstr :=
  match s with
  | EmptyString => []
  | String c r => Z.of_nat (nat_of_ascii c) :: u r
  end.

(** The characters of JS [\s] and of [String.prototype.trim]:
    WhiteSpace and LineTerminator code points of ECMA-262. *)
Definition is_ws (c : Z) : bool :=
  (c =? 9) || (c =? 10) || (c =? 11) || (c =? 12) || (c =? 13) || (c =? 32)
  || (c =? 160) || (c =? 5760) || ((8192 <=? c) && (c <=? 8202))
  || (c =? 8232) || (c =? 8233) || (c =? 8239) || (c =? 8287)
  || (c =? 12288) || (c =? 65279).

(** Line terminators: the characters that [.] does not match. *)
Definition is_lt (c : Z) : bool :=
  (c =? 10) || (c =? 13) || (c =? 8232) || (c =? 8233).

Fixpoint ltrim (s : jsstr) : jsstr :=
  match s with
  | c :: r => if is_ws c then ltrim r else s
  | [] => []
  end.

(** [s.trim()] *)
Definition trim (s : jsstr) : jsstr := rev (ltrim (rev (ltrim s))).

Definition is_empty (s : jsstr) : bool :=
  match s with [] => true | _ => false end.

(** [s.startsWith("|")] and [s.endsWith("|")] *)
Definition starts_pipe (s : jsstr) : bool :=
  match s with c :: _ => c =? 124 | [] => false end.

Definition ends_pipe (s : jsstr) : bool := starts_pipe (rev s).

(** [s.split(d)] for a one-character separator: never empty. *)
Fixpoint split_on (d : Z) (s : jsstr) : list jsstr :=
  match s with
  | [] => [[]]
  | c :: r =>
      if c =? d then [] :: split_on d r
      else match split_on d r with
           | w :: ws => (c :: w) :: ws
           | [] => [[c]]
           end
  end.

(** [ws.join(d)] *)
Fixpoint join (d : Z) (ws : list jsstr) : jsstr :=
  match ws with
  | [] => []
  | [w] => w
  | w :: ws' => w ++ d :: join d ws'
  end.

(** [raw.replace(/\r\n/g, "\n")] *)
Fixpoint crlf (s : jsstr) : jsstr :=
  match s with
  | c :: r =>
      if c =? 13 then
        match r with
        | d :: r' => if d =? 10 then 10 :: crlf r' else c :: crlf r
        | [] => [c]
        end
      else c :: crlf r
  | [] => []
  end.

(** [s.replace(/\*\*(.+?)\*\*/g, "$1")]: after the opening [**] and a
    first character, the lazy [.+?] grows one non-terminator at a time
    until a closing [**] follows. *)
Fixpoint bold_close (acc r : jsstr) : option (jsstr * jsstr) :=
  match r with
  | a :: t =>
      match t with
      | b :: r' =>
          if (a =? 42) && (b =? 42) then Some (acc, r')
          else if is_lt a then None else bold_close (acc ++ [a]) t
      | [] => None
      end
  | [] => None
  end.

Fixpoint strip_bold (fuel : nat) (s : jsstr) : jsstr :=
  match fuel with
  | O => s
  | S f =>
      match s with
      | [] => []
      | a :: t =>
          let skip := a :: strip_bold f t in
          if a =? 42 then
            match t with
            | b :: r =>
                if b =? 42 then
                  match r with
                  | c :: r1 =>
                      if is_lt c then skip
                      else match bold_close [c] r1 with
                           | Some (inner, rest) => inner ++ strip_bold f rest
                           | None => skip
                           end
                  | [] => skip
                  end
                else skip
            | [] => skip
            end
          else skip
      end
  end.

(** [s.replace(/`([^`]+)`/g, "$1")]: the greedy [[^`]+] runs to the next
    backtick. *)
Fixpoint code_close (acc r : jsstr) : option (jsstr * jsstr) :=
  match r with
  | c :: t => if c =? 96 then Some (acc, t) else code_close (acc ++ [c]) t
  | [] => None
  end.

Fixpoint strip_code (fuel : nat) (s : jsstr) : jsstr :=
  match fuel with
  | O => s
  | S f =>
      match s with
      | [] => []
      | a :: t =>
          let skip := a :: strip_code f t in
          if a =? 96 then
            match code_close [] t with
            | Some (inner, rest) =>
                if is_empty inner then skip else inner ++ strip_code f rest
            | None => skip
            end
          else skip
      end
  end.

(** [stripInlineMarkdown] *)
Definition stripInlineMarkdown (s : jsstr) : jsstr :=
  let s1 := strip_bold (List.length s) s in
  strip_code (List.length s1) s1.

(* ------------------------------------------------------------------ *)
(** ** [renderMessageContentWithTables] *)

(** The blocks the renderer appends to its fragment: a [<p>] whose
    [textContent] is [text], or a table with a header row and body rows. *)
Inductive segment :=
| Prose (text : jsstr)
| Table (header : list jsstr) (rows : list (list jsstr)).

(** [splitMarkdownRow] *)
Definition splitMarkdownRow (line : jsstr) : list jsstr :=
  let work := trim line in
  let work := if starts_pipe work then tl work else work in
  let work := if ends_pipe work then removelast work else work in
  map (fun cell => stripInlineMarkdown (trim cell)) (split_on 124 work).

(** The character class [[|\s:\-]]. *)
Definition sep_char (c : Z) : bool := (c =? 124) || is_ws c || (c =? 58) || (c =? 45).

(** [isTableSeparatorLine] *)
Definition isTableSeparatorLine (line : jsstr) : bool :=
  let t := trim line in
  if negb (starts_pipe t) then false
  else
    let stripped := filter (fun c => negb (sep_char c)) t in
    (List.length stripped =? 0)%nat && existsb (fun c => c =? 45) t.

Definition is_blank (line : jsstr) : bool := is_empty (trim line).

(** The table-start test of both loops, on the suffix [lines[i..]]:
    [lines[i].trim().startsWith("|") && i + 1 < lines.length &&
     isTableSeparatorLine(lines[i + 1])]. *)
Definition table_start (ls : list jsstr) : bool :=
  match ls with
  | l :: l2 :: _ => starts_pipe (trim l) && isTableSeparatorLine l2
  | _ => false
  end.

(** The body-row loop: rows are consumed while they start with a pipe, are
    not separators and are not blank; returns the rows and the rest. *)
Fixpoint take_rows (ls : list jsstr) : list (list jsstr) * list jsstr :=
  match ls with
  | [] => ([], [])
  | l :: r =>
      let trimmed := trim l in
      if negb (starts_pipe trimmed) || isTableSeparatorLine l || is_empty trimmed
      then ([], ls)
      else let (rows, rest) := take_rows r in (splitMarkdownRow l :: rows, rest)
  end.

(** The [normalLines] loop. *)
Fixpoint take_prose (normalLines : list jsstr) (ls : list jsstr)
  : list jsstr * list jsstr :=
  match ls with
  | [] => (normalLines, [])
  | l :: r =>
      if table_start ls then (normalLines, ls)
      else if is_blank l && negb (match normalLines with [] => true | _ => false end)
      then (normalLines, ls)
      else take_prose (normalLines ++ [l]) r
  end.

(** The loop skipping blank lines after a paragraph. *)
Fixpoint skip_blank (ls : list jsstr) : list jsstr :=
  match ls with
  | l :: r => if is_blank l then skip_blank r else ls
  | [] => []
  end.

(** The outer [while (i < lines.length)] loop, on the suffix [lines[i..]];
    every iteration consumes at least one line, so [List.length] of the
    suffix is enough fuel (see [seg_loop_fuel]). *)
Fixpoint seg_loop (fuel : nat) (ls : list jsstr) : list segment :=
  match fuel with
  | O => []
  | S f =>
      match ls with
      | [] => []
      | line :: r =>
          if table_start ls then
            match r with
            | _ :: body =>
                let (rows, rest) := take_rows body in
                Table (splitMarkdownRow line) rows :: seg_loop f rest
            | [] => []
            end
          else
            let (normalLines, rest) := take_prose [] ls in
            match normalLines with
            | [] => []
            | _ => [Prose (stripInlineMarkdown (join 10 normalLines))]
            end ++ seg_loop f (skip_blank rest)
      end
  end.

Definition seg_lines (lines : list jsstr) : list segment :=
  seg_loop (List.length lines) lines.

(** The blocks rendered for a raw message. *)
Definition renderMessageContentWithTables (raw : jsstr) : list segment :=
  seg_lines (split_on 10 (crlf raw)).

(** The outer loop once more, each block paired with the suffix
    [lines[i..]] at which the iteration that appended it began: the value
    of [i] at the top of [while (i < lines.length)]. *)
Fixpoint seg_loop_at (fuel : nat) (ls : list jsstr) : list (list jsstr * segment) :=
  match fuel with
  | O => []
  | S f =>
      match ls with
      | [] => []
      | line :: r =>
          if table_start ls then
            match r with
            | _ :: body =>
                let (rows, rest) := take_rows body in
                (ls, Table (splitMarkdownRow line) rows) :: seg_loop_at f rest
            | [] => []
            end
          else
            let (normalLines, rest) := take_prose [] ls in
            match normalLines with
            | [] => []
            | _ => [(ls, Prose (stripInlineMarkdown (join 10 normalLines)))]
            end ++ seg_loop_at f (skip_blank rest)
      end
  end.

(** The blocks of a rendering with the lines they start at. *)
Definition seg_blocks (lines : list jsstr) : list (list jsstr * segment) :=
  seg_loop_at (List.length lines) lines.

(** Multi-line literals. *)
Definition unlines (ls : list string) : jsstr := join 10 (map u ls).

(* ------------------------------------------------------------------ *)
(** ** Data model of [main.ts] *)

Inductive Role := user | assistant.

(** [interface Message] *)
Record Message := mkMessage {
  role : Role;
  content : jsstr;
  msg_createdAt : Z
}.

(** [interface ChatSession]; timestamps are [Date.now()] values. *)
Record ChatSession := mkSession {
  id : jsstr;
  title : jsstr;
  messages : list Message;
  createdAt : Z;
  updatedAt : Z
}.

(** The module-level [let] bindings [sessions], [currentSessionId] and
    [isSending]. *)
Record Store := mkStore {
  sessions : list ChatSession;
  currentSessionId : option jsstr;
  isSending : bool
}.

(** [===] on strings. *)
Fixpoint jsstr_eqb (a b : jsstr) : bool :=
  match a, b with
  | [], [] => true
  | x :: a', y :: b' => (x =? y) && jsstr_eqb a' b'
  | _, _ => false
  end.

(** ["新しいチャット"] *)
Definition new_chat_title : jsstr :=
  [26032; 12375; 12356; 12481; 12515; 12483; 12488].

(** Decimal digits of a timestamp, as in a template literal. *)
Fixpoint digits (fuel : nat) (n : Z) : jsstr :=
  match fuel with
  | O => []
  | S f => if n <? 10 then [48 + n] else digits f (n / 10) ++ [48 + n mod 10]
  end.

Definition num_to_string (n : Z) : jsstr :=
  if n <? 0 then 45 :: digits 20 (- n) else digits 20 n.

Definition set_sessions (st : Store) (ss : list ChatSession) : Store :=
  mkStore ss (currentSessionId st) (isSending st).

Definition set_current (st : Store) (c : option jsstr) : Store :=
  mkStore (sessions st) c (isSending st).

(** [createNewSession(title)]: [now] is [Date.now()] and [rnd] the
    random suffix [Math.random().toString(36).slice(2, 8)].  The session is
    [unshift]ed to the front of [sessions]. *)
Definition createNewSession (title0 : jsstr) (now : Z) (rnd : jsstr) (st : Store)
  : Store * ChatSession :=
  let s := mkSession (u "session_" ++ num_to_string now ++ u "_" ++ rnd)
                     title0 [] now now in
  (set_sessions st (s :: sessions st), s).

(** [Array.prototype.sort] with comparator [(a, b) => b.updatedAt -
    a.updatedAt].  ECMAScript requires the sort to be stable, so the result
    is the stable insertion sort by [updatedAt], descending. *)
Fixpoint insert_desc (x : ChatSession) (l : list ChatSession) : list ChatSession :=
  match l with
  | [] => [x]
  | y :: l' => if updatedAt y <=? updatedAt x then x :: l else y :: insert_desc x l'
  end.

Fixpoint sort_by_updated (l : list ChatSession) : list ChatSession :=
  match l with
  | [] => []
  | x :: l' => insert_desc x (sort_by_updated l')
  end.

(** What [localStorage.getItem(SESSIONS_KEY)] and [JSON.parse] give:
    nothing (or the empty string), a parse error, or a session array. *)
Inductive SessionsBlob :=
| SAbsent
| SCorrupt
| SParsed (ss : list ChatSession).

(** [loadSessions] *)
Definition loadSessions (blob : SessionsBlob) (now : Z) (rnd : jsstr) (st : Store)
  : Store :=
  let st := match blob with
            | SAbsent => st
            | SCorrupt => set_sessions st []
            | SParsed ss => set_sessions st ss
            end in
  match sessions st with
  | [] => let (st', s) := createNewSession new_chat_title now rnd st in
          set_current st' (Some (id s))
  | _ =>
      let ss := sort_by_updated (sessions st) in
      match ss with
      | s0 :: _ => set_current (set_sessions st ss) (Some (id s0))
      | [] => st
      end
  end.

(** [sessions.findIndex((s) => s.id === id)] *)
Fixpoint findIndex (i : jsstr) (ss : list ChatSession) : option nat :=
  match ss with
  | [] => None
  | s :: r => if jsstr_eqb (id s) i then Some O
              else option_map S (findIndex i r)
  end.

(** [sessions.splice(idx, 1)] *)
Fixpoint remove_at (n : nat) (ss : list ChatSession) : list ChatSession :=
  match n, ss with
  | _, [] => []
  | O, _ :: r => r
  | S n', s :: r => s :: remove_at n' r
  end.

Definition opt_eqb (a : option jsstr) (b : jsstr) : bool :=
  match a with Some a => jsstr_eqb a b | None => false end.

(** [deleteSession(id)]; [now] and [rnd] feed the replacement session. *)
Definition deleteSession (i : jsstr) (now : Z) (rnd : jsstr) (st : Store) : Store :=
  match findIndex i (sessions st) with
  | None => st
  | Some idx =>
      let st := set_sessions st (remove_at idx (sessions st)) in
      match sessions st with
      | [] => let (st', s) := createNewSession new_chat_title now rnd st in
              set_current st' (Some (id s))
      | _ =>
          if opt_eqb (currentSessionId st) i then
            let ss := sort_by_updated (sessions st) in
            match ss with
            | s0 :: _ => set_current (set_sessions st ss) (Some (id s0))
            | [] => st
            end
          else st
      end
  end.

(** The "new chat" button handler. *)
Definition newChat (now : Z) (rnd : jsstr) (st : Store) : Store :=
  let (st', s) := createNewSession new_chat_title now rnd st in
  set_current st' (Some (id s)).

(** [sessions.find((s) => s.id === currentSessionId)] *)
Fixpoint find_session (c : option jsstr) (ss : list ChatSession) : option ChatSession :=
  match ss with
  | [] => None
  | s :: r => if opt_eqb c (id s) then Some s else find_session c r
  end.

Definition getCurrentSession (st : Store) : option ChatSession :=
  find_session (currentSessionId st) (sessions st).

(** Mutating the object [find] returned: the first session whose id matches. *)
Fixpoint update_first (c : option jsstr) (f : ChatSession -> ChatSession)
  (ss : list ChatSession) : list ChatSession :=
  match ss with
  | [] => []
  | s :: r => if opt_eqb c (id s) then f s :: r else s :: update_first c f r
  end.

(** [text.replace(/\s+/g, " ")]: [in_run] says the previous character
    belonged to a whitespace run already replaced by one space. *)
Fixpoint collapse_go (in_run : bool) (s : jsstr) : jsstr :=
  match s with
  | [] => []
  | c :: r =>
      if is_ws c then (if in_run then collapse_go true r else 32 :: collapse_go true r)
      else c :: collapse_go false r
  end.

Definition collapse_ws (s : jsstr) : jsstr := collapse_go false s.

(** [s.slice(0, n)] *)
Definition slice0 (n : nat) (s : jsstr) : jsstr := firstn n s.

(** The title update of [handleSend] for a session without messages. *)
Definition derive_title (text : jsstr) : jsstr :=
  let t := slice0 30 (collapse_ws text) in
  if is_empty t then new_chat_title else t.

(** JS completion of a call: normal return, or a thrown error. *)
Inductive Completion (A : Type) :=
| Normal (a : A)
| Throw (msg : jsstr).
Arguments Normal {A} a.
Arguments Throw {A} msg.

(** The synchronous part of [handleSend], up to the [await] of
    [sendToLmStudio]: [input] is [userInputEl.value] and [now] the
    [Date.now()] of the user message. *)
Definition handleSend (input : jsstr) (now : Z) (st : Store) : Completion Store :=
  if isSending st then Normal st
  else
    match getCurrentSession st with
    | None => Normal st
    | Some session =>
        let text := trim input in
        if is_empty text then Normal st
        else
          let upd (s : ChatSession) :=
            let t := match messages s with
                     | [] => derive_title text
                     | _ => title s
                     end in
            mkSession (id s) t (messages s ++ [mkMessage user text now])
                      (createdAt s) now in
          Normal (mkStore (update_first (currentSessionId st) upd (sessions st))
                          (currentSessionId st) true)
    end.

(** The continuation of [handleSend] after [sendToLmStudio] settles:
    the reply (or the fixed diagnostic message) is pushed to the session
    object captured before the [await], identified here by its id [sid],
    and [isSending] is reset. *)
Definition handleSendReply (sid : jsstr) (reply : jsstr) (t2 : Z) (st : Store) : Store :=
  let upd (s : ChatSession) :=
    mkSession (id s) (title s) (messages s ++ [mkMessage assistant reply t2])
              (createdAt s) t2 in
  mkStore (update_first (Some sid) upd (sessions st)) (currentSessionId st) false.

(** The order of the sidebar ([renderSidebar]): a sorted copy. *)
Definition listByRecency (st : Store) : list ChatSession :=
  sort_by_updated (sessions st).

(** [s.includes(q)] *)
Fixpoint is_prefix (p s : jsstr) : bool :=
  match p, s with
  | [], _ => true
  | _, [] => false
  | a :: p', b :: s' => (a =? b) && is_prefix p' s'
  end.

Fixpoint includes (s q : jsstr) : bool :=
  match s with
  | [] => is_prefix q s
  | _ :: s' => is_prefix q s || includes s' q
  end.

(** [toLowerCase] on the ASCII range (the inputs of our concrete runs). *)
Definition ascii_lower (s : jsstr) : jsstr :=
  map (fun c => if (65 <=? c) && (c <=? 90) then c + 32 else c) s.

Section Search.
(** [String.prototype.toLowerCase], left abstract. *)
Variable toLowerCase : jsstr -> jsstr.

(** The filter callback of [searchChat], for the lowered query [q]. *)
Definition matches (q : jsstr) (s : ChatSession) : bool :=
  (negb (is_empty (title s)) && includes (toLowerCase (title s)) q)
  || existsb (fun m => includes (toLowerCase (content m)) q) (messages s).

(** The [matched] array of [searchChat] ([] on the early return). *)
Definition searchChat (keyword : jsstr) (st : Store) : list ChatSession :=
  let q := toLowerCase (trim keyword) in
  if is_empty q then [] else filter (matches q) (sessions st).
End Search.

(** [selectSession(id)] (a click on a sidebar item). *)
Definition selectSession (i : jsstr) (st : Store) : Store :=
  if opt_eqb (currentSessionId st) i then st else set_current st (Some i).

(** The operations of a session of the app; [OpSelect n] is a click on
    the [n]-th item of the sidebar. *)
Inductive Op :=
| OpLoad (blob : SessionsBlob) (now : Z) (rnd : jsstr)
| OpNewChat (now : Z) (rnd : jsstr)
| OpDelete (i : jsstr) (now : Z) (rnd : jsstr)
| OpSend (input : jsstr) (now : Z)
| OpReply (sid : jsstr) (reply : jsstr) (t2 : Z)
| OpSelect (n : nat).

Definition of_completion (c : Completion Store) (st : Store) : Store :=
  match c with Normal st' => st' | Throw _ => st end.

Definition step (st : Store) (op : Op) : Store :=
  match op with
  | OpLoad b now rnd => loadSessions b now rnd st
  | OpNewChat now rnd => newChat now rnd st
  | OpDelete i now rnd => deleteSession i now rnd st
  | OpSend input now => of_completion (handleSend input now st) st
  | OpReply sid reply t2 => handleSendReply sid reply t2 st
  | OpSelect n =>
      match nth_error (listByRecency st) n with
      | Some s => selectSession (id s) st
      | None => st
      end
  end.

Definition run (st : Store) (ops : list Op) : Store := fold_left step ops st.

(** The state before [DOMContentLoaded]. *)
Definition init_store : Store := mkStore [] None false.

(* ------------------------------------------------------------------ *)
(** ** Settings *)

(** JSON values; a number is written [m * 10^e]. *)
Inductive jval :=
| JNull
| JBool (b : bool)
| JNum (m e : Z)
| JStr (s : jsstr)
| JArr (xs : list jval)
| JObj (props : list (jsstr * jval)).

(** A JS object: its own enumerable properties, in insertion order. *)
Definition obj := list (jsstr * jval).

Fixpoint obj_get (k : jsstr) (o : obj) : option jval :=
  match o with
  | [] => None
  | (k', v) :: r => if jsstr_eqb k' k then Some v else obj_get k r
  end.

(** [o[k] = v]: an existing property keeps its place. *)
Fixpoint obj_set (k : jsstr) (v : jval) (o : obj) : obj :=
  match o with
  | [] => [(k, v)]
  | (k', v') :: r => if jsstr_eqb k' k then (k', v) :: r else (k', v') :: obj_set k v r
  end.

(** [{ ...a, ...b }] *)
Definition spread (a b : obj) : obj :=
  fold_left (fun acc kv => obj_set (fst kv) (snd kv) acc) b a.

(** [DEFAULT_SETTINGS] *)
Definition DEFAULT_SETTINGS : obj :=
  [ (u "apiBaseUrl", JStr (u "http://localhost:1234/v1"));
    (u "modelId", JStr (u "mistralai/ministral-3-3b"));
    (u "systemPrompt", JStr [12354; 12394; 12383; 12399; 26085; 26412; 35486; 12391;
                             19969; 23527; 12395; 22238; 31572; 12377; 12427; 12450;
                             12471; 12473; 12479; 12531; 12488; 12391; 12377; 12290]);
    (u "temperature", JNum 7 (-1));
    (u "maxTokens", JNull) ].

(** What [localStorage.getItem(SETTINGS_KEY)] and [JSON.parse] give:
    nothing (or the empty string), a parse error, or a value, given by the
    own enumerable properties it contributes to a spread. *)
Inductive SettingsBlob :=
| SetAbsent
| SetCorrupt
| SetParsed (parsed : obj).

(** [loadSettings]: the resulting [settings] object. *)
Definition loadSettings (blob : SettingsBlob) : obj :=
  let settings := match blob with
                  | SetParsed parsed => spread DEFAULT_SETTINGS parsed
                  | SetAbsent | SetCorrupt => spread [] DEFAULT_SETTINGS
                  end in
  let settings := obj_set (u "temperature") (JNum 7 (-1)) settings in
  obj_set (u "maxTokens") JNull settings.

(* ------------------------------------------------------------------ *)
(** ** Header, sidebar and settings panel *)

(** ["未設定"] and ["無題のチャット"] *)
Definition unset_label : jsstr := [26410; 35373; 23450].
Definition untitled_label : jsstr := [28961; 38988; 12398; 12481; 12515; 12483; 12488].

(** JS truthiness of a property read ([None] is [undefined]). *)
Definition truthy (v : option jval) : bool :=
  match v with
  | None | Some JNull => false
  | Some (JBool b) => b
  | Some (JNum m _) => negb (m =? 0)
  | Some (JStr s) => negb (is_empty s)
  | Some (JArr _) | Some (JObj _) => true
  end.

(** [getModelDisplayName]: [raw.split] throws when the truthy [modelId]
    is not a string. *)
Definition getModelDisplayName (settings : obj) : Completion jsstr :=
  let m := obj_get (u "modelId") settings in
  if negb (truthy m) then Normal unset_label
  else
    match m with
    | Some (JStr raw) =>
        let parts := split_on 47 raw in
        let last := List.last parts [] in
        Normal (if is_empty last then raw else last)
    | _ => Throw (u "TypeError")
    end.

(** [s.endsWith(c)] for one character. *)
Definition ends_with (c : Z) (s : jsstr) : bool :=
  match rev s with x :: _ => x =? c | [] => false end.

(** [s.replace(/\/$/, "")]: without the [m] flag [$] is the end of input. *)
Definition strip_trailing_slash (s : jsstr) : jsstr :=
  if ends_with 47 s then removelast s else s.

(** [buildApiUrl(path)]: [replace] throws when [apiBaseUrl] is not a
    string. *)
Definition buildApiUrl (settings : obj) (path : jsstr) : Completion jsstr :=
  match obj_get (u "apiBaseUrl") settings with
  | Some (JStr s) => Normal (strip_trailing_slash s ++ path)
  | _ => Throw (u "TypeError")
  end.

(** A JS number as [parseFloat] or [Number] return it; a finite one is
    [m * 10^e] (every double is a finite decimal). *)
Inductive jsnum :=
| NaN
| PosInf
| NegInf
| Fin (m e : Z).

(** [m1 * 10^e1 <= m2 * 10^e2] *)
Definition dec_le (m1 e1 m2 e2 : Z) : bool :=
  let e := Z.min e1 e2 in
  m1 * 10 ^ (e1 - e) <=? m2 * 10 ^ (e2 - e).

(** [Number.isNaN(temp) ? DEFAULT_SETTINGS.temperature
     : Math.max(0, Math.min(2, temp))], as [(m, e)]. *)
Definition clamp_temp (x : jsnum) : Z * Z :=
  match x with
  | NaN => (7, -1)
  | PosInf => (2, 0)
  | NegInf => (0, 0)
  | Fin m e =>
      let y := if dec_le 2 0 m e then (2, 0) else (m, e) in
      if dec_le (fst y) (snd y) 0 0 then (0, 0) else y
  end.

Definition is_digit (c : Z) : bool := (48 <=? c) && (c <=? 57).

Fixpoint digits_prefix (s : jsstr) : jsstr :=
  match s with
  | c :: r => if is_digit c then c :: digits_prefix r else []
  | [] => []
  end.

Definition digits_value (ds : jsstr) : Z :=
  fold_left (fun acc c => acc * 10 + (c - 48)) ds 0.

(** [parseInt(s, 10)], with [None] for [NaN]: leading whitespace, an
    optional sign, then the longest run of decimal digits.  The value is
    the exact integer; the engine returns it as a double, which is the same
    number below 2^53. *)
Definition parseInt10 (s : jsstr) : option Z :=
  let s := ltrim s in
  let (sign, s) := match s with
                   | c :: r => if c =? 45 then (-1, r)
                               else if c =? 43 then (1, r) else (1, s)
                   | [] => (1, s)
                   end in
  let ds := digits_prefix s in
  if is_empty ds then None else Some (sign * digits_value ds).

(** The values of the five inputs of the settings panel. *)
Record SettingsInputs := mkInputs {
  in_apiBaseUrl : jsstr;
  in_modelId : jsstr;
  in_temperature : jsstr;
  in_maxTokens : jsstr;
  in_systemPrompt : jsstr
}.

(** [DEFAULT_SETTINGS.k] for a string property. *)
Definition default_str (k : jsstr) : jsstr :=
  match obj_get k DEFAULT_SETTINGS with Some (JStr s) => s | _ => [] end.

(** [v.trim() || DEFAULT_SETTINGS.k] *)
Definition or_default (v : jsstr) (k : jsstr) : jsstr :=
  let t := trim v in if is_empty t then default_str k else t.

(** The [maxTokens] assignment of [updateSettingsFromInputs]. *)
Definition maxTokens_of (v : jsstr) : jval :=
  let rawMax := trim v in
  if is_empty rawMax then JNull
  else match parseInt10 rawMax with
       | None => JNull
       | Some n => if n <=? 0 then JNull else JNum n 0
       end.

Section SettingsPanel.
(** [parseFloat], left abstract. *)
Variable parseFloat : jsstr -> jsnum.

(** [updateSettingsFromInputs] *)
Definition updateSettingsFromInputs (inp : SettingsInputs) (settings : obj) : obj :=
  let s := obj_set (u "apiBaseUrl")
             (JStr (or_default (in_apiBaseUrl inp) (u "apiBaseUrl"))) settings in
  let s := obj_set (u "modelId") (JStr (or_default (in_modelId inp) (u "modelId"))) s in
  let s := obj_set (u "systemPrompt")
             (JStr (or_default (in_systemPrompt inp) (u "systemPrompt"))) s in
  let t := clamp_temp (parseFloat (in_temperature inp)) in
  let s := obj_set (u "temperature") (JNum (fst t) (snd t)) s in
  obj_set (u "maxTokens") (maxTokens_of (in_maxTokens inp)) s.
End SettingsPanel.

(** One item of the sidebar list: its session id, its title text and
    whether it has the [active] class. *)
Record SidebarItem := mkItem {
  item_id : jsstr;
  item_title : jsstr;
  item_active : bool
}.

(** [session.title || "無題のチャット"] *)
Definition list_label (s : ChatSession) : jsstr :=
  if is_empty (title s) then untitled_label else title s.

(** [renderSidebar]: the items, in order. *)
Definition renderSidebar (st : Store) : list SidebarItem :=
  map (fun s => mkItem (id s) (list_label s) (opt_eqb (currentSessionId st) (id s)))
      (listByRecency st).

(* ------------------------------------------------------------------ *)
(** ** Search dialog *)

(** [Number.isInteger(n)], giving the integer. *)
Definition jsnum_int (x : jsnum) : option Z :=
  match x with
  | Fin m e =>
      if 0 <=? e then Some (m * 10 ^ e)
      else if m mod 10 ^ (- e) =? 0 then Some (m / 10 ^ (- e)) else None
  | _ => None
  end.

(** The lines of [listText]: [`${idx + 1}: ${s.title || "無題のチャット"}`]. *)
Fixpoint list_entries (k : Z) (ss : list ChatSession) : list jsstr :=
  match ss with
  | [] => []
  | s :: r => (num_to_string k ++ u ": " ++ list_label s) :: list_entries (k + 1) r
  end.

Definition listText (ss : list ChatSession) : jsstr := join 10 (list_entries 1 ss).

Section SearchDialog.
Variable toLowerCase : jsstr -> jsstr.
(** [Number(answer)], left abstract. *)
Variable toNumber : jsstr -> jsnum.

(** [searchChat(keyword)] with its dialogs: [answer] is what
    [window.prompt] returns when there are several matches ([None] for
    [null]).  The alert changes no state. *)
Definition searchChatNav (keyword : jsstr) (answer : option jsstr) (st : Store) : Store :=
  let q := toLowerCase (trim keyword) in
  if is_empty q then st
  else
    let matched := filter (matches toLowerCase q) (sessions st) in
    match matched with
    | [] => st
    | [s] => set_current st (Some (id s))
    | _ =>
        match answer with
        | None => st
        | Some a =>
            if is_empty a then st
            else
              match jsnum_int (toNumber a) with
              | Some n =>
                  if (n <? 1) || (Z.of_nat (List.length matched) <? n) then st
                  else match nth_error matched (Z.to_nat (n - 1)) with
                       | Some s => set_current st (Some (id s))
                       | None => st
                       end
              | None => st
              end
        end
    end.
End SearchDialog.

(* ------------------------------------------------------------------ *)
(** ** LM Studio API *)

Definition role_str (r : Role) : jsstr :=
  match r with user => u "user" | assistant => u "assistant" end.

(** A property of an object literal whose value may be [undefined]:
    [JSON.stringify] leaves it out. *)
Definition opt_prop (k : jsstr) (v : option jval) : obj :=
  match v with Some v => [(k, v)] | None => [] end.

(** The request body of [sendToLmStudio], as [JSON.stringify] writes it. *)
Definition chat_payload (settings : obj) (session : ChatSession) : obj :=
  opt_prop (u "model") (obj_get (u "modelId") settings) ++
  [(u "messages",
    JArr (JObj ((u "role", JStr (u "system"))
                :: opt_prop (u "content") (obj_get (u "systemPrompt") settings))
          :: map (fun m => JObj [(u "role", JStr (role_str (role m)));
                                 (u "content", JStr (content m))])
                 (messages session)))] ++
  opt_prop (u "temperature") (obj_get (u "temperature") settings) ++
  match obj_get (u "maxTokens") settings with
  | Some JNull => []
  | v => opt_prop (u "max_tokens") v
  end.

(** [v[k]] for the keys read here ([choices], [message], [content], [data],
    [id]): only an object has them. *)
Definition get_prop (k : jsstr) (v : jval) : option jval :=
  match v with JObj o => obj_get k o | _ => None end.

(** [v[0]] *)
Definition get_index0 (v : jval) : option jval :=
  match v with
  | JArr (x :: _) => Some x
  | JObj o => obj_get (u "0") o
  | JStr (c :: _) => Some (JStr [c])
  | _ => None
  end.

(** [v?.rest]: [null] and [undefined] short-circuit. *)
Definition opt_chain (v : option jval) (f : jval -> option jval) : option jval :=
  match v with None | Some JNull => None | Some x => f x end.

(** ["（LM Studio からの応答が取得できませんでした）"] *)
Definition no_reply_text : jsstr :=
  [65288] ++ u "LM Studio " ++
  [12363; 12425; 12398; 24540; 31572; 12364; 21462; 24471; 12391; 12365; 12414;
   12379; 12435; 12391; 12375; 12383; 65289].

(** [data.choices?.[0]?.message?.content ?? "（…）"]; [data.choices]
    throws on a [null] body. *)
Definition reply_of (data : jval) : Completion jval :=
  match data with
  | JNull => Throw (u "TypeError")
  | _ =>
      match opt_chain (opt_chain (opt_chain (get_prop (u "choices") data) get_index0)
                                 (get_prop (u "message")))
                      (get_prop (u "content")) with
      | None | Some JNull => Normal (JStr no_reply_text)
      | Some v => Normal v
      end
  end.

(** What [fetch] resolves to: [ok], [status], the text of the body and
    its [JSON.parse] ([None] when [res.json()] rejects). *)
Record Response := mkResponse {
  res_ok : bool;
  res_status : Z;
  res_text : jsstr;
  res_json : option jval
}.

(** [sendToLmStudio(session)]; [res] is the settled [fetch] (a [Throw]
    when it rejects). *)
Definition sendToLmStudio (settings : obj) (session : ChatSession)
  (res : Completion Response) : Completion jval :=
  match buildApiUrl settings (u "/chat/completions") with
  | Throw m => Throw m
  | Normal _ =>
      match res with
      | Throw m => Throw m
      | Normal r =>
          if negb (res_ok r) then
            Throw (u "HTTP " ++ num_to_string (res_status r) ++ u ": " ++ res_text r)
          else match res_json r with
               | None => Throw (u "SyntaxError")
               | Some d => reply_of d
               end
      end
  end.

(** The diagnostic message [handleSend] pushes when the request fails. *)
Definition send_error_text : jsstr :=
  u "LM Studio " ++
  [12408; 12398; 12522; 12463; 12456; 12473; 12488; 12391; 12456; 12521; 12540;
   12364; 30330; 29983; 12375; 12414; 12375; 12383; 12290; 10; 12539] ++
  u "LM Studio " ++
  [12398; 12469; 12540; 12496; 12540; 12364; 36215; 21205; 12375; 12390; 12356;
   12427; 12363; 10; 12539; 12300] ++
  u "CORS " ++ [12434; 26377; 21177; 12395; 12377; 12427; 12301; 12364] ++
  u " ON " ++ [12363; 10; 12539] ++ u "API " ++ [12505; 12540; 12473] ++ u "URL" ++
  [12392; 12514; 12487; 12523] ++ u "ID" ++
  [12364; 27491; 12375; 12356; 12363; 10; 12434; 30906; 35469; 12375; 12390; 12367;
   12384; 12373; 12356; 12290].

(** The [try]/[catch] of [handleSend] after the user message: a string
    reply is pushed, a rejection pushes [send_error_text]. *)
Definition handleSendFinish (sid : jsstr) (r : Completion jsstr) (t2 : Z) (st : Store) : Store :=
  handleSendReply sid (match r with Normal s => s | Throw _ => send_error_text end) t2 st.

(** [data.data?.map((m) => m.id).filter((id) => typeof id === "string")
     ?? []]: [null.data], [null.id] and [.map] on a non-array throw. *)
Definition model_ids (data : jval) : Completion (list jsstr) :=
  match data with
  | JNull => Throw (u "TypeError")
  | _ =>
      match get_prop (u "data") data with
      | None | Some JNull => Normal []
      | Some (JArr xs) =>
          if existsb (fun m => match m with JNull => true | _ => false end) xs
          then Throw (u "TypeError")
          else Normal (flat_map (fun m => match get_prop (u "id") m with
                                          | Some (JStr s) => [s]
                                          | _ => []
                                          end) xs)
      | Some _ => Throw (u "TypeError")
      end
  end.

(** [ensureModelList()]: the new [availableModelIds]. *)
Definition ensureModelList (available : list jsstr) (settings : obj)
  (res : Completion Response) : list jsstr :=
  match available with
  | _ :: _ => available
  | [] =>
      match buildApiUrl settings (u "/models") with
      | Throw _ => []
      | Normal _ =>
          match res with
          | Throw _ => []
          | Normal r =>
              if negb (res_ok r) then []
              else match res_json r with
                   | None => []
                   | Some d => match model_ids d with Normal ids => ids | Throw _ => [] end
                   end
          end
      end
  end.

(* ------------------------------------------------------------------ *)
(** ** Predicates of the proofs *)

Definition desc (a b : ChatSession) : Prop := updatedAt b <= updatedAt a.

(** [currentSessionId] names a session of the store. *)
Definition cur_ok (st : Store) : Prop :=
  exists i, currentSessionId st = Some i /\ In i (map id (sessions st)).

Definition store_ok (st : Store) : Prop := sessions st <> [] /\ cur_ok st.

Definition ts_ok (t : Z) (ss : list ChatSession) : Prop :=
  forall s, In s ss -> createdAt s <= updatedAt s <= t.

(** The [Date.now()] an operation reads, if any. *)
Definition op_time (op : Op) : option Z :=
  match op with
  | OpLoad _ now _ | OpNewChat now _ | OpDelete _ now _ | OpSend _ now => Some now
  | OpReply _ _ t2 => Some t2
  | OpSelect _ => None
  end.

Definition next_time (t : Z) (op : Op) : Z :=
  match op_time op with Some t' => t' | None => t end.

(** A clock that does not go back, and persisted sessions consistent
    with it. *)
Definition op_ok (t : Z) (op : Op) : Prop :=
  match op with
  | OpLoad (SParsed ss) now _ => t <= now /\ ts_ok now ss
  | OpSelect _ => True
  | _ => match op_time op with Some t' => t <= t' | None => True end
  end.

Fixpoint clocked (t : Z) (ops : list Op) : Prop :=
  match ops with
  | [] => True
  | op :: r => op_ok t op /\ clocked (next_time t op) r
  end.

(** The separator test in the words of the spec: trimmed, starts with a
    pipe, only pipes, whitespace, colons and hyphens, and one hyphen at
    least. *)
Definition sep_spec (line : jsstr) : Prop :=
  let t := trim line in
  starts_pipe t = true /\
  Forall (fun c => c = 124 \/ is_ws c = true \/ c = 58 \/ c = 45) t /\
  In 45 t.

(** [ws.join(d)] for a separator string. *)
Fixpoint join_sep (d : jsstr) (ws : list jsstr) : jsstr :=
  match ws with
  | [] => []
  | [w] => w
  | w :: ws' => w ++ d ++ join_sep d ws'
  end.

(** The source has no function turning blocks back into text; this is the
    reading of the rendered output as plain text: a paragraph is its
    [textContent], a table one line per row with its cells separated by
    tabs, and consecutive blocks are separated by a blank line. *)
Definition segment_text (s : segment) : jsstr :=
  match s with
  | Prose t => t
  | Table h rows => join 10 (map (join 9) (h :: rows))
  end.

Definition joinSegmentsBackToText (segs : list segment) : jsstr :=
  join_sep [10; 10] (map segment_text segs).

(** Characters with no meaning for the renderer: no pipe, no [*], no
    backtick and no carriage return. *)
Definition plain_char (c : Z) : bool :=
  negb (c =? 124) && negb (c =? 42) && negb (c =? 96) && negb (c =? 13).

Definition line_ok (l : jsstr) : bool :=
  forallb (fun c => plain_char c && negb (c =? 10)) l.

(** Paragraph lines separated by one blank line. *)
Fixpoint sep_groups (G : list (list jsstr)) : list jsstr :=
  match G with
  | [] => []
  | [g] => g
  | g :: G' => g ++ [] :: sep_groups G'
  end.

Definition good_line (l : jsstr) : Prop := line_ok l = true /\ is_blank l = false.

Definition good_group (g : list jsstr) : Prop := g <> [] /\ Forall good_line g.

Definition blank_headed (ls : list jsstr) : Prop :=
  ls = [] \/ exists l r, ls = l :: r /\ is_blank l = true.

(** A line the table body loop takes as a row: trimmed it starts with a
    pipe, and it is not a separator line. *)
Definition row_line (l : jsstr) : bool :=
  starts_pipe (trim l) && negb (isTableSeparatorLine l).

(** The five properties [updateSettingsFromInputs] writes. *)
Definition settings_keys : list jsstr :=
  [u "apiBaseUrl"; u "modelId"; u "systemPrompt"; u "temperature"; u "maxTokens"].

(** ** Sample stores *)

Definition c1_store : Store :=
  mkStore [mkSession (u "session_1_a") new_chat_title [] 1 1] (Some (u "session_1_a")) false.


(** A reply that arrives after its session was deleted: nothing is
    stored, so loading creates [session_1_a]; a message is sent there, and
    while the request is pending that session is deleted. *)
Definition c3_ops : list Op :=
  [OpLoad (SParsed []) 1 (u "a"); OpSend (u "hi") 2; OpDelete (u "session_1_a") 3 (u "b")].

Definition c3_store : Store := run init_store c3_ops.

Definition c4_store : Store :=
  mkStore [mkSession (u "session_1_a") (u "Notes") [] 1 1] (Some (u "session_1_a")) false.

Definition c8_session : ChatSession := mkSession (u "session_1_a") new_chat_title [] 1 1.
Definition c8_store : Store := mkStore [c8_session] (Some (u "session_1_a")) false.

Definition c8_loaded : ChatSession := mkSession (u "s") (u "t") [] 1 10.

(** The store of C7: two chats, the older one of the array written to
    last. *)
Definition c7_ops : list Op :=
  [OpLoad (SParsed []) 1 (u "a"); OpNewChat 2 (u "b");
   OpSend (u "chat two") 3; OpReply (u "session_2_b") (u "ok") 3;
   OpSelect 1; OpSend (u "chat one") 4; OpReply (u "session_1_a") (u "ok") 4].

Definition c7_store : Store := run init_store c7_ops.

(* ================================================================== *)
(** * Proofs *)

(** ** Strings *)

Lemma jsstr_eqb_eq (a b : jsstr) : jsstr_eqb a b = true <-> a = b.
Proof.
  revert b; induction a as [|x a IH]; intros [|y b]; simpl; split; intro H;
    try congruence.
  - apply andb_true_iff in H as [H1 H2]. apply Z.eqb_eq in H1.
    apply IH in H2. congruence.
  - inversion H; subst. apply andb_true_iff; split; [apply Z.eqb_refl | now apply IH].
Qed.

Lemma jsstr_eqb_refl (a : jsstr) : jsstr_eqb a a = true.
Proof. now apply jsstr_eqb_eq. Qed.

Lemma jsstr_eqb_neq (a b : jsstr) : a <> b -> jsstr_eqb a b = false.
Proof.
  intro H. destruct (jsstr_eqb a b) eqn:E; auto. apply jsstr_eqb_eq in E. contradiction.
Qed.

(** ** Recency sort *)

Lemma insert_desc_perm x l : Permutation (insert_desc x l) (x :: l).
Proof.
  induction l as [|y l IH]; simpl; auto.
  destruct (updatedAt y <=? updatedAt x); auto.
  eapply perm_trans; [apply perm_skip, IH | apply perm_swap].
Qed.

Lemma sort_by_updated_perm l : Permutation (sort_by_updated l) l.
Proof.
  induction l as [|x l IH]; simpl; auto.
  eapply perm_trans; [apply insert_desc_perm | now apply perm_skip].
Qed.

Lemma insert_desc_sorted x l : Sorted desc l -> Sorted desc (insert_desc x l).
Proof.
  induction 1 as [|y l Hs IH Hhd]; simpl; [now repeat constructor|].
  destruct (updatedAt y <=? updatedAt x) eqn:E.
  - apply Z.leb_le in E. constructor; [constructor; auto | constructor; exact E].
  - apply Z.leb_gt in E. constructor; auto.
    destruct l as [|z l]; simpl; [constructor; unfold desc; lia|].
    inversion Hhd; subst. unfold desc in *.
    destruct (updatedAt z <=? updatedAt x); constructor; unfold desc; lia.
Qed.

Lemma sort_by_updated_sorted l : Sorted desc (sort_by_updated l).
Proof. induction l; simpl; auto using insert_desc_sorted. Qed.

Lemma filter_insert_desc (p : ChatSession -> bool) x l :
  (forall y, p x = true -> p y = true -> updatedAt y = updatedAt x) ->
  filter p (insert_desc x l) = filter p (x :: l).
Proof.
  intro Hp. induction l as [|y l IH]; simpl; auto.
  destruct (updatedAt y <=? updatedAt x) eqn:E; simpl; auto.
  apply Z.leb_gt in E. rewrite IH. simpl.
  destruct (p x) eqn:Ex, (p y) eqn:Ey; auto.
  specialize (Hp y eq_refl Ey). lia.
Qed.

(** Equal keys keep their relative order. *)
Lemma sort_by_updated_stable (k : Z) l :
  filter (fun s => updatedAt s =? k) (sort_by_updated l)
  = filter (fun s => updatedAt s =? k) l.
Proof.
  induction l as [|x l IH]; simpl; auto.
  rewrite filter_insert_desc.
  - simpl. now rewrite IH.
  - intros y H1 H2. apply Z.eqb_eq in H1, H2. lia.
Qed.

Lemma sort_by_updated_id_of_sorted l : Sorted desc l -> sort_by_updated l = l.
Proof.
  induction 1 as [|x l Hs IH Hhd]; simpl; auto.
  rewrite IH. destruct l as [|y l]; simpl; auto.
  inversion Hhd; subst. unfold desc in *.
  destruct (updatedAt y <=? updatedAt x) eqn:E; auto. apply Z.leb_gt in E. lia.
Qed.

(** ** Store invariant *)

Lemma opt_eqb_true c i : opt_eqb c i = true -> c = Some i.
Proof. destruct c; simpl; [intro H; apply jsstr_eqb_eq in H; congruence | discriminate]. Qed.

Lemma sort_nonempty l : l <> [] -> exists s0 r, sort_by_updated l = s0 :: r /\ In s0 l.
Proof.
  intro H. destruct (sort_by_updated l) as [|s0 r] eqn:E.
  - pose proof (Permutation_length (sort_by_updated_perm l)) as HL.
    rewrite E in HL. destruct l; [contradiction | discriminate].
  - exists s0, r. split; auto.
    apply (Permutation_in _ (sort_by_updated_perm l)). rewrite E. now left.
Qed.

Lemma in_ids_sort i l : In i (map id (sort_by_updated l)) <-> In i (map id l).
Proof.
  split; intro H; apply in_map_iff in H as [s [<- Hs]]; apply in_map.
  - exact (Permutation_in _ (sort_by_updated_perm l) Hs).
  - exact (Permutation_in _ (Permutation_sym (sort_by_updated_perm l)) Hs).
Qed.

Lemma create_ok title0 now rnd st :
  let (st', s) := createNewSession title0 now rnd st in
  store_ok (set_current st' (Some (id s))).
Proof.
  unfold createNewSession, store_ok, cur_ok; simpl. split; [discriminate|].
  eexists; split; [reflexivity | now left].
Qed.

(** Selecting the head of the sorted, non-empty session list. *)
Lemma select_sorted_ok st :
  sessions st <> [] ->
  store_ok (match sort_by_updated (sessions st) with
            | s0 :: _ => set_current (set_sessions st (sort_by_updated (sessions st)))
                                     (Some (id s0))
            | [] => st
            end).
Proof.
  intro H. destruct (sort_nonempty _ H) as [s0 [r [E Hin]]]. rewrite E.
  unfold store_ok, cur_ok; simpl. split; [discriminate|].
  exists (id s0); split; [reflexivity | simpl; now left].
Qed.

Lemma loadSessions_ok b now rnd st : store_ok (loadSessions b now rnd st).
Proof.
  unfold loadSessions.
  set (st1 := match b with
              | SAbsent => st | SCorrupt => set_sessions st []
              | SParsed ss => set_sessions st ss end).
  destruct (sessions st1) eqn:E.
  - apply create_ok.
  - rewrite <- E. apply select_sorted_ok. rewrite E. discriminate.
Qed.

Lemma newChat_ok now rnd st : store_ok (newChat now rnd st).
Proof. apply create_ok. Qed.

Lemma findIndex_remove i ss n c :
  findIndex i ss = Some n -> c <> i -> In c (map id ss) ->
  In c (map id (remove_at n ss)).
Proof.
  revert n; induction ss as [|s ss IH]; intros n Hf Hc Hin; simpl in *; [discriminate|].
  destruct (jsstr_eqb (id s) i) eqn:E.
  - inversion Hf; subst. apply jsstr_eqb_eq in E.
    destruct Hin as [Hin|Hin]; [congruence | exact Hin].
  - destruct (findIndex i ss) as [m|] eqn:Hm; simpl in Hf; [|discriminate].
    inversion Hf; subst. simpl.
    destruct Hin as [Hin|Hin]; [now left | right; eauto].
Qed.

Lemma deleteSession_ok i now rnd st : store_ok st -> store_ok (deleteSession i now rnd st).
Proof.
  intros [Hne [c [Hc Hin]]]. unfold deleteSession.
  destruct (findIndex i (sessions st)) as [n|] eqn:Hf; [|split; [exact Hne | exists c; auto]].
  simpl. destruct (remove_at n (sessions st)) as [|s0 r] eqn:Er.
  - apply create_ok.
  - destruct (opt_eqb (currentSessionId st) i) eqn:Eq.
    + pose proof (select_sorted_ok (set_sessions st (s0 :: r))) as H.
      simpl in H. apply H. discriminate.
    + split; [simpl; discriminate|]. exists c; split; [exact Hc|].
      unfold sessions at 1, set_sessions. rewrite <- Er. apply (findIndex_remove i); auto.
      intros ->. rewrite Hc in Eq. simpl in Eq. now rewrite jsstr_eqb_refl in Eq.
Qed.

Lemma update_first_ids c f ss :
  (forall s, id (f s) = id s) -> map id (update_first c f ss) = map id ss.
Proof.
  intro Hf. induction ss as [|s ss IH]; simpl; auto.
  destruct (opt_eqb c (id s)); simpl; rewrite ?Hf, ?IH; auto.
Qed.

Lemma update_first_length c f ss : List.length (update_first c f ss) = List.length ss.
Proof.
  induction ss as [|s ss IH]; simpl; auto. destruct (opt_eqb c (id s)); simpl; auto.
Qed.

Lemma update_first_ok c f st b :
  (forall s, id (f s) = id s) -> store_ok st ->
  store_ok (mkStore (update_first c f (sessions st)) (currentSessionId st) b).
Proof.
  intros Hf [Hne [i [Hi Hin]]]. split; simpl.
  - intro E. apply (f_equal (@List.length _)) in E.
    rewrite update_first_length in E. destruct (sessions st); [contradiction | discriminate].
  - exists i. split; [exact Hi|]. unfold sessions at 1. rewrite update_first_ids; auto.
Qed.

Lemma step_ok st op : (match op with OpLoad _ _ _ => True | _ => store_ok st end) ->
  store_ok (step st op).
Proof.
  intro H. destruct op; simpl.
  - apply loadSessions_ok.
  - apply newChat_ok.
  - now apply deleteSession_ok.
  - unfold handleSend. destruct (isSending st); simpl; auto.
    destruct (getCurrentSession st); simpl; auto.
    destruct (is_empty (trim input)); simpl; auto.
    apply update_first_ok; auto.
  - unfold handleSendReply. apply update_first_ok; auto.
  - destruct (nth_error (listByRecency st) n) as [s|] eqn:E; auto.
    unfold selectSession. destruct (opt_eqb (currentSessionId st) (id s)); auto.
    destruct H as [Hne _]. split; auto. exists (id s); simpl; split; auto.
    apply nth_error_In in E. unfold listByRecency in E.
    apply in_ids_sort. now apply in_map.
Qed.

Lemma run_ok st ops : store_ok st -> store_ok (run st ops).
Proof.
  revert st; induction ops as [|op ops IH]; intros st H; simpl; auto.
  apply IH, step_ok. destruct op; auto.
Qed.

(** ** Settings objects *)

Lemma obj_get_set_same k v o : obj_get k (obj_set k v o) = Some v.
Proof.
  induction o as [|[k' v'] o IH]; simpl; [now rewrite jsstr_eqb_refl|].
  destruct (jsstr_eqb k' k) eqn:E; simpl; rewrite ?E; auto.
Qed.

Lemma obj_get_set_other k k' v o : k' <> k -> obj_get k (obj_set k' v o) = obj_get k o.
Proof.
  intro H. induction o as [|[k0 v0] o IH]; simpl.
  - now rewrite jsstr_eqb_neq.
  - destruct (jsstr_eqb k0 k') eqn:E; simpl.
    + apply jsstr_eqb_eq in E; subst. now rewrite !jsstr_eqb_neq.
    + destruct (jsstr_eqb k0 k); auto.
Qed.

Lemma spread_get_absent k a b : ~ In k (map fst b) -> obj_get k (spread a b) = obj_get k a.
Proof.
  revert a; induction b as [|[k' v'] b IH]; intros a H; simpl in *; auto.
  change (spread a ((k', v') :: b)) with (spread (obj_set k' v' a) b).
  rewrite IH by tauto.
  apply obj_get_set_other. intros ->. tauto.
Qed.

Lemma spread_get_in k v a b :
  NoDup (map fst b) -> In (k, v) b -> obj_get k (spread a b) = Some v.
Proof.
  revert a; induction b as [|[k' v'] b IH]; intros a Hnd Hin; simpl in *; [contradiction|].
  inversion Hnd as [|? ? Hnotin Hnd']; subst.
  change (spread a ((k', v') :: b)) with (spread (obj_set k' v' a) b).
  destruct Hin as [Heq|Hin].
  - inversion Heq; subst. rewrite spread_get_absent by exact Hnotin.
    apply obj_get_set_same.
  - now apply IH.
Qed.

(** ** Sending *)

Lemma opt_eqb_id_preserve c f s : id (f s) = id s -> opt_eqb c (id (f s)) = opt_eqb c (id s).
Proof. intros ->. reflexivity. Qed.

Lemma find_update_first c f ss :
  (forall s, id (f s) = id s) ->
  find_session c (update_first c f ss) = option_map f (find_session c ss).
Proof.
  intro Hf. induction ss as [|s ss IH]; simpl; auto.
  destruct (opt_eqb c (id s)) eqn:E; simpl.
  - now rewrite Hf, E.
  - now rewrite E.
Qed.

Lemma in_update_first c f ss x :
  In x (update_first c f ss) -> In x ss \/ exists s, In s ss /\ x = f s.
Proof.
  induction ss as [|s ss IH]; simpl; [tauto|].
  destruct (opt_eqb c (id s)); simpl; intros [H|H].
  - right. exists s. auto.
  - left. auto.
  - left. auto.
  - destruct (IH H) as [H'|[s' [Hs' ->]]]; [left; auto | right; exists s'; auto].
Qed.

Lemma collapse_go_nonempty x : x <> [] -> collapse_go false x <> [].
Proof.
  destruct x as [|c r]; [contradiction|]. intros _. simpl.
  destruct (is_ws c); discriminate.
Qed.

Lemma is_empty_false (x : jsstr) : x <> [] -> is_empty x = false.
Proof. destruct x; [contradiction | reflexivity]. Qed.

Lemma derive_title_nonempty text :
  text <> [] -> derive_title text = slice0 30 (collapse_ws text) /\
                slice0 30 (collapse_ws text) <> [].
Proof.
  intro H. unfold derive_title, collapse_ws, slice0.
  pose proof (collapse_go_nonempty text H) as Hc.
  destruct (collapse_go false text) as [|c r]; [contradiction|]. simpl.
  split; [reflexivity | discriminate].
Qed.

Lemma handleSend_append st s input now :
  isSending st = false -> getCurrentSession st = Some s -> trim input <> [] ->
  let upd := fun s0 : ChatSession =>
    mkSession (id s0)
      (match messages s0 with [] => derive_title (trim input) | _ => title s0 end)
      (messages s0 ++ [mkMessage user (trim input) now]) (createdAt s0) now in
  handleSend input now st =
    Normal (mkStore (update_first (currentSessionId st) upd (sessions st))
                    (currentSessionId st) true).
Proof.
  intros Hs Hc Ht upd. unfold handleSend. rewrite Hs, Hc, is_empty_false by exact Ht.
  reflexivity.
Qed.

(** ** Timestamps *)

Lemma ts_ok_mono t t' ss : t <= t' -> ts_ok t ss -> ts_ok t' ss.
Proof. intros H Hs s Hin. specialize (Hs s Hin). lia. Qed.

Lemma ts_ok_perm t l l' : Permutation l l' -> ts_ok t l' -> ts_ok t l.
Proof. intros P H s Hin. apply H. eapply Permutation_in; eauto. Qed.

Lemma ts_ok_create t now rnd title0 st :
  t <= now -> ts_ok t (sessions st) ->
  ts_ok now (sessions (let (st', s) := createNewSession title0 now rnd st in
                       set_current st' (Some (id s)))).
Proof.
  intros Hle H s [<-|Hin]; simpl; [lia|]. specialize (H s Hin). lia.
Qed.

Lemma ts_ok_select_sorted t st :
  ts_ok t (sessions st) ->
  ts_ok t (sessions (match sort_by_updated (sessions st) with
                     | s0 :: _ => set_current (set_sessions st (sort_by_updated (sessions st)))
                                              (Some (id s0))
                     | [] => st
                     end)).
Proof.
  intro H. destruct (sort_by_updated (sessions st)) eqn:E; auto. simpl.
  rewrite <- E. apply (ts_ok_perm _ _ _ (sort_by_updated_perm _)). exact H.
Qed.

Lemma in_remove_at n ss x : In x (remove_at n ss) -> In x ss.
Proof.
  revert n; induction ss as [|s ss IH]; intros [|n]; simpl; try tauto.
  intros [H|H]; [now left | right; eapply IH; eauto].
Qed.

Lemma ts_ok_update c f t ss :
  ts_ok t ss -> (forall s, createdAt s <= updatedAt s <= t -> createdAt (f s) <= updatedAt (f s) <= t) ->
  ts_ok t (update_first c f ss).
Proof.
  intros H Hf x Hx. destruct (in_update_first _ _ _ _ Hx) as [Hin|[s [Hin ->]]]; auto.
Qed.

Lemma step_ts t st op :
  ts_ok t (sessions st) -> op_ok t op -> ts_ok (next_time t op) (sessions (step st op)).
Proof.
  intros H Hop. destruct op as [b now rnd|now rnd|i now rnd|input now|sid reply t2|n];
    unfold next_time; simpl in *.
  - unfold loadSessions.
    assert (H1 : ts_ok now (sessions (match b with
              | SAbsent => st | SCorrupt => set_sessions st []
              | SParsed ss => set_sessions st ss end))).
    { destruct b; simpl in *.
      - eapply ts_ok_mono; eauto.
      - intros s [].
      - tauto. }
    assert (Hle : t <= now) by (destruct b; tauto).
    set (st1 := match b with
              | SAbsent => st | SCorrupt => set_sessions st []
              | SParsed ss => set_sessions st ss end) in *.
    destruct (sessions st1) eqn:E.
    + apply (ts_ok_create now); [lia | rewrite E; intros s []].
    + rewrite <- E. apply ts_ok_select_sorted. rewrite E. exact H1.
  - now apply (ts_ok_create t).
  - unfold deleteSession. destruct (findIndex i (sessions st)) as [k|]; [|eapply ts_ok_mono; eauto].
    assert (H1 : ts_ok now (remove_at k (sessions st))).
    { intros s Hs. apply in_remove_at in Hs. specialize (H s Hs). lia. }
    simpl. destruct (remove_at k (sessions st)) eqn:E.
    + apply (ts_ok_create now); [lia | exact H1].
    + destruct (opt_eqb (currentSessionId st) i).
      * exact (ts_ok_select_sorted now (set_sessions st (c :: l)) H1).
      * exact H1.
  - unfold handleSend. destruct (isSending st); [simpl; eapply ts_ok_mono; eauto|].
    destruct (getCurrentSession st); [|simpl; eapply ts_ok_mono; eauto].
    destruct (is_empty (trim input)); [simpl; eapply ts_ok_mono; eauto|].
    simpl. apply ts_ok_update; [eapply ts_ok_mono; eauto|].
    intros s Hs; simpl. lia.
  - unfold handleSendReply; simpl. apply ts_ok_update; [eapply ts_ok_mono; eauto|].
    intros s Hs; simpl. lia.
  - destruct (nth_error (listByRecency st) n); auto.
    unfold selectSession. destruct (opt_eqb (currentSessionId st) (id c)); auto.
Qed.

Lemma run_ts t st ops :
  ts_ok t (sessions st) -> clocked t ops ->
  exists t', ts_ok t' (sessions (run st ops)).
Proof.
  revert t st; induction ops as [|op ops IH]; intros t st H Hc; simpl in *; [eauto|].
  destruct Hc as [Hop Hc]. eapply IH; [apply step_ts|]; eauto.
Qed.

Lemma find_session_in c ss s : find_session c ss = Some s -> In s ss.
Proof.
  induction ss as [|s0 ss IH]; simpl; [discriminate|].
  destruct (opt_eqb c (id s0)); [intro H; inversion H; now left | intro H; right; auto].
Qed.

Lemma loadSessions_sorted b now rnd st : Sorted desc (sessions (loadSessions b now rnd st)).
Proof.
  unfold loadSessions.
  set (st1 := match b with
              | SAbsent => st | SCorrupt => set_sessions st []
              | SParsed ss => set_sessions st ss end).
  destruct (sessions st1) eqn:E.
  - simpl. rewrite E. repeat constructor.
  - rewrite <- E. destruct (sort_by_updated (sessions st1)) eqn:E2.
    + rewrite E in E2. destruct (sort_nonempty (c :: l)) as [s0 [r [E3 _]]];
        [discriminate | congruence].
    + simpl. rewrite <- E2. apply sort_by_updated_sorted.
Qed.

(** ** The renderer *)

Lemma isTableSeparatorLine_spec line : isTableSeparatorLine line = true <-> sep_spec line.
Proof.
  unfold isTableSeparatorLine, sep_spec.
  set (t := trim line). destruct (starts_pipe t) eqn:Hs; simpl.
  2:{ split; [discriminate | intros [H _]; discriminate]. }
  rewrite andb_true_iff, Nat.eqb_eq, length_zero_iff_nil, existsb_exists.
  split.
  - intros [Hf [c [Hin Hc]]]. split; [reflexivity|]. split.
    + apply Forall_forall. intros x Hx.
      destruct (sep_char x) eqn:E.
      * unfold sep_char in E. repeat rewrite orb_true_iff in E.
        rewrite !Z.eqb_eq in E. tauto.
      * assert (In x (filter (fun c => negb (sep_char c)) t))
          by (apply filter_In; rewrite E; auto).
        rewrite Hf in H. destruct H.
    + apply Z.eqb_eq in Hc. now subst.
  - intros [_ [Hall Hin]]. split.
    + destruct (filter (fun c => negb (sep_char c)) t) as [|x r] eqn:E; auto.
      assert (Hx : In x (filter (fun c => negb (sep_char c)) t)) by (rewrite E; now left).
      apply filter_In in Hx as [Hx Hn].
      rewrite Forall_forall in Hall. specialize (Hall x Hx).
      unfold sep_char in Hn. destruct Hall as [ -> | [H | [ -> | -> ]]]; simpl in Hn;
        rewrite ?H, ?orb_true_r in Hn; discriminate.
    + exists 45. split; auto.
Qed.

Lemma take_prose_cons acc l r :
  take_prose acc (l :: r) =
  if table_start (l :: r) then (acc, l :: r)
  else if is_blank l && negb (match acc with [] => true | _ => false end)
  then (acc, l :: r)
  else take_prose (acc ++ [l]) r.
Proof. reflexivity. Qed.

Lemma take_prose_fst acc ls : exists ext, fst (take_prose acc ls) = acc ++ ext.
Proof.
  revert acc; induction ls as [|l r IH]; intro acc.
  - exists []. simpl. now rewrite app_nil_r.
  - rewrite take_prose_cons. destruct (table_start (l :: r)); [exists []; simpl; now rewrite app_nil_r|].
    destruct (is_blank l && negb match acc with [] => true | _ => false end);
      [exists []; simpl; now rewrite app_nil_r|].
    destruct (IH (acc ++ [l])) as [ext E]. exists (l :: ext). rewrite E, <- app_assoc. reflexivity.
Qed.

Lemma seg_loop_cons f line r :
  seg_loop (S f) (line :: r) =
  if table_start (line :: r) then
    match r with
    | _ :: body =>
        let (rows, rest) := take_rows body in
        Table (splitMarkdownRow line) rows :: seg_loop f rest
    | [] => []
    end
  else
    let (normalLines, rest) := take_prose [] (line :: r) in
    match normalLines with
    | [] => []
    | _ => [Prose (stripInlineMarkdown (join 10 normalLines))]
    end ++ seg_loop f (skip_blank rest).
Proof. reflexivity. Qed.

(** The first iteration of the outer loop opens a table exactly on a
    table start. *)
Lemma seg_lines_first_table ls :
  (exists h rows rest, seg_lines ls = Table h rows :: rest) <-> table_start ls = true.
Proof.
  split.
  - intros [h [rows [rest E]]]. destruct ls as [|l r]; [discriminate|].
    unfold seg_lines in E. change (List.length (l :: r)) with (S (List.length r)) in E.
    rewrite seg_loop_cons in E.
    destruct (table_start (l :: r)) eqn:Ht; auto.
    exfalso. rewrite take_prose_cons, Ht in E. simpl in E. rewrite andb_false_r in E.
    destruct (take_prose_fst [l] r) as [ext Hext].
    destruct (take_prose [l] r) as [nl rest'] eqn:Ep. simpl in Hext. subst nl.
    simpl in E. discriminate.
  - intro H. destruct ls as [|l [|l2 body]]; try discriminate.
    unfold seg_lines. change (List.length (l :: l2 :: body)) with (S (List.length (l2 :: body))).
    rewrite seg_loop_cons, H.
    destruct (take_rows body). eauto.
Qed.

Lemma skipn_two {A} (ls : list A) i l l2 :
  (exists r, skipn i ls = l :: l2 :: r) <-> nth_error ls i = Some l /\ nth_error ls (S i) = Some l2.
Proof.
  revert ls; induction i as [|i IH]; intros [|x ls]; simpl.
  - split; [intros [r H]; discriminate | intros [H _]; discriminate].
  - destruct ls as [|y ls]; split.
    + intros [r H]; discriminate.
    + intros [_ H]; discriminate.
    + intros [r H]; inversion H; subst; auto.
    + intros [H1 H2]; inversion H1; inversion H2; subst; eauto.
  - split; [intros [r H]; discriminate | intros [H _]; discriminate].
  - apply IH.
Qed.

Lemma take_rows_rest_len ls : (List.length (snd (take_rows ls)) <= List.length ls)%nat.
Proof.
  induction ls as [|l r IH]; simpl; auto.
  destruct (negb (starts_pipe (trim l)) || isTableSeparatorLine l || is_empty (trim l));
    simpl; auto.
  destruct (take_rows r); simpl in *; lia.
Qed.

Lemma take_prose_rest_len acc ls : (List.length (snd (take_prose acc ls)) <= List.length ls)%nat.
Proof.
  revert acc; induction ls as [|l r IH]; intro acc; [simpl; lia|].
  rewrite take_prose_cons.
  destruct (table_start (l :: r)); [simpl; lia|].
  destruct (is_blank l && negb match acc with [] => true | _ :: _ => false end); [simpl; lia|].
  specialize (IH (acc ++ [l])). simpl. lia.
Qed.

Lemma skip_blank_len ls : (List.length (skip_blank ls) <= List.length ls)%nat.
Proof. induction ls as [|l r IH]; simpl; auto. destruct (is_blank l); simpl; lia. Qed.

Lemma seg_loop_nil f : seg_loop f [] = [].
Proof. destruct f; reflexivity. Qed.

(** Every iteration of the outer loop consumes a line: any fuel of at
    least the number of lines gives the same blocks. *)
Lemma seg_loop_fuel n m ls :
  (List.length ls <= n)%nat -> (List.length ls <= m)%nat -> seg_loop n ls = seg_loop m ls.
Proof.
  revert m ls; induction n as [|n IH]; intros m ls Hn Hm.
  - destruct ls; [now rewrite !seg_loop_nil | simpl in Hn; lia].
  - destruct ls as [|l r]; [now rewrite !seg_loop_nil|].
    destruct m as [|m]; [simpl in Hm; lia|].
    rewrite !seg_loop_cons. simpl in Hn, Hm.
    destruct (table_start (l :: r)) eqn:Ht.
    + destruct r as [|l2 body]; auto.
      pose proof (take_rows_rest_len body) as Hb.
      destruct (take_rows body) as [rows rest]. simpl in *.
      f_equal. apply IH; lia.
    + rewrite take_prose_cons, Ht. simpl. rewrite andb_false_r.
      pose proof (take_prose_rest_len [l] r) as Hp.
      destruct (take_prose [l] r) as [nl rest]. simpl in Hp.
      pose proof (skip_blank_len rest).
      f_equal. apply IH; lia.
Qed.

(* ------------------------------------------------------------------ *)
(** ** Rendering back to text *)

Lemma strip_bold_id f s : (forall c, In c s -> c <> 42) -> strip_bold f s = s.
Proof.
  revert s; induction f as [|f IH]; intros s H; [reflexivity|].
  destruct s as [|a t]; [reflexivity|].
  simpl. destruct (a =? 42) eqn:E.
  - apply Z.eqb_eq in E. exfalso. apply (H a); [left; reflexivity | exact E].
  - f_equal. apply IH. intros c Hc. apply H. now right.
Qed.

Lemma strip_code_id f s : (forall c, In c s -> c <> 96) -> strip_code f s = s.
Proof.
  revert s; induction f as [|f IH]; intros s H; [reflexivity|].
  destruct s as [|a t]; [reflexivity|].
  simpl. destruct (a =? 96) eqn:E.
  - apply Z.eqb_eq in E. exfalso. apply (H a); [left; reflexivity | exact E].
  - f_equal. apply IH. intros c Hc. apply H. now right.
Qed.

Lemma strip_id s : (forall c, In c s -> c <> 42 /\ c <> 96) -> stripInlineMarkdown s = s.
Proof.
  intro H. unfold stripInlineMarkdown.
  rewrite strip_bold_id by (intros c Hc; apply (H c Hc)).
  apply strip_code_id. intros c Hc; apply (H c Hc).
Qed.

Lemma crlf_id s : (forall c, In c s -> c <> 13) -> crlf s = s.
Proof.
  induction s as [|a t IH]; intro H; [reflexivity|].
  simpl. destruct (a =? 13) eqn:E.
  - apply Z.eqb_eq in E. exfalso. apply (H a); [left; reflexivity | exact E].
  - f_equal. apply IH. intros c Hc. apply H. now right.
Qed.

Lemma in_join d ls c : In c (join d ls) -> c = d \/ exists l, In l ls /\ In c l.
Proof.
  induction ls as [|w ws IH]; simpl; [tauto|].
  destruct ws as [|w' ws'].
  - intro H. right. exists w. split; [now left | exact H].
  - intro H. apply in_app_or in H. destruct H as [H | [H | H]].
    + right. exists w. split; [now left | exact H].
    + left. now symmetry.
    + destruct (IH H) as [E | [l [Hl Hc]]]; [now left|].
      right. exists l. split; [now right | exact Hc].
Qed.

Lemma split_on_nod d w : (~ In d w) -> split_on d w = [w].
Proof.
  induction w as [|c w IH]; intro H; [reflexivity|].
  simpl. destruct (c =? d) eqn:E.
  - apply Z.eqb_eq in E. subst. exfalso. apply H. now left.
  - rewrite IH; [reflexivity|]. intro H'. apply H. now right.
Qed.

Lemma split_on_app d w r : (~ In d w) -> split_on d (w ++ d :: r) = w :: split_on d r.
Proof.
  induction w as [|c w IH]; intro H.
  - simpl. now rewrite Z.eqb_refl.
  - simpl. destruct (c =? d) eqn:E.
    + apply Z.eqb_eq in E. subst. exfalso. apply H. now left.
    + rewrite IH; [reflexivity|]. intro H'. apply H. now right.
Qed.

Lemma split_join d ls :
  ls <> [] -> (forall l, In l ls -> ~ In d l) -> split_on d (join d ls) = ls.
Proof.
  induction ls as [|w ws IH]; intros Hne H; [contradiction|].
  destruct ws as [|w' ws'].
  - simpl. apply split_on_nod. apply H. now left.
  - change (join d (w :: w' :: ws')) with (w ++ d :: join d (w' :: ws')).
    rewrite split_on_app by (apply H; now left).
    f_equal. apply IH; [discriminate|]. intros l Hl. apply H. now right.
Qed.

Lemma split_on_nonempty d s : split_on d s <> [].
Proof.
  induction s as [|c r IH]; simpl; [discriminate|].
  destruct (c =? d); [discriminate|]. destruct (split_on d r); discriminate.
Qed.

Lemma in_split_on d s l c : In l (split_on d s) -> In c l -> In c s /\ c <> d.
Proof.
  revert l; induction s as [|a r IH]; intros l Hl Hc.
  - simpl in Hl. destruct Hl as [<- | []]. destruct Hc.
  - simpl in Hl. destruct (a =? d) eqn:E.
    + destruct Hl as [<- | Hl]; [destruct Hc|].
      destruct (IH l Hl Hc). split; [now right | assumption].
    + destruct (split_on d r) as [|w ws] eqn:Es.
      * destruct Hl as [<- | []]. destruct Hc as [<- | []].
        split; [now left|]. intro E'. subst. now rewrite Z.eqb_refl in E.
      * destruct Hl as [<- | Hl].
        -- destruct Hc as [<- | Hc].
           ++ split; [now left|]. intro E'. subst. now rewrite Z.eqb_refl in E.
           ++ destruct (IH w) as [H1 H2]; [now left | exact Hc|].
              split; [now right | exact H2].
        -- destruct (IH l) as [H1 H2]; [now right | exact Hc|].
           split; [now right | exact H2].
Qed.

Lemma in_ltrim s c : In c (ltrim s) -> In c s.
Proof.
  induction s as [|a r IH]; simpl; [tauto|].
  destruct (is_ws a); [intro H; right; now apply IH | tauto].
Qed.

Lemma in_trim s c : In c (trim s) -> In c s.
Proof.
  unfold trim. intro H. apply in_rev in H. apply in_ltrim in H.
  apply in_rev in H. now apply in_ltrim.
Qed.

Lemma line_ok_chars l c : line_ok l = true -> In c l -> plain_char c = true /\ c <> 10.
Proof.
  unfold line_ok. rewrite forallb_forall. intros H Hc.
  specialize (H c Hc). apply andb_prop in H. destruct H as [H1 H2].
  split; [exact H1|]. apply negb_true_iff, Z.eqb_neq in H2. exact H2.
Qed.

Lemma plain_char_spec c : plain_char c = true -> c <> 124 /\ c <> 42 /\ c <> 96 /\ c <> 13.
Proof.
  unfold plain_char. intro H.
  repeat match goal with
         | H : _ && _ = true |- _ => apply andb_prop in H; destruct H
         | H : negb _ = true |- _ => apply negb_true_iff, Z.eqb_neq in H
         end.
  repeat split; assumption.
Qed.

Lemma table_start_nopipe l r : line_ok l = true -> table_start (l :: r) = false.
Proof.
  intro H. destruct r as [|l2 r]; [reflexivity|].
  change (table_start (l :: l2 :: r)) with (starts_pipe (trim l) && isTableSeparatorLine l2).
  destruct (trim l) as [|c t] eqn:E; [reflexivity|].
  simpl. apply andb_false_intro1, Z.eqb_neq.
  assert (Hc : In c l) by (apply in_trim; rewrite E; now left).
  destruct (line_ok_chars l c H Hc) as [Hp _]. apply plain_char_spec in Hp. tauto.
Qed.

Lemma table_start_blank l r : is_blank l = true -> table_start (l :: r) = false.
Proof.
  intro H. destruct r as [|l2 r]; [reflexivity|].
  change (table_start (l :: l2 :: r)) with (starts_pipe (trim l) && isTableSeparatorLine l2).
  unfold is_blank in H. destruct (trim l); [reflexivity | discriminate].
Qed.

(** The paragraph loop on plain lines stops at the first blank line. *)
Lemma take_prose_plain acc p rest :
  acc <> [] -> Forall good_line p -> blank_headed rest ->
  take_prose acc (p ++ rest) = (acc ++ p, rest).
Proof.
  revert acc; induction p as [|l p IH]; intros acc Hacc Hp Hr.
  - change ([] ++ rest) with rest. rewrite app_nil_r.
    destruct Hr as [-> | [l [r [-> Hb]]]]; [reflexivity|].
    rewrite take_prose_cons, table_start_blank, Hb by exact Hb.
    destruct acc; [contradiction | reflexivity].
  - inversion Hp as [|? ? [Hok Hb] Hp']; subst.
    change ((l :: p) ++ rest) with (l :: (p ++ rest)).
    rewrite take_prose_cons, table_start_nopipe, Hb by exact Hok. simpl.
    rewrite IH; [now rewrite <- app_assoc | | exact Hp' | exact Hr].
    destruct acc; discriminate.
Qed.

Lemma take_prose_dec acc ls :
  acc <> [] -> Forall (fun l => line_ok l = true) ls ->
  exists p rest, ls = p ++ rest /\ Forall good_line p /\ blank_headed rest /\
                 take_prose acc ls = (acc ++ p, rest).
Proof.
  revert acc; induction ls as [|l r IH]; intros acc Hacc Hok.
  - exists [], []. split; [reflexivity|]. split; [constructor|].
    split; [now left|]. now rewrite app_nil_r.
  - inversion Hok as [|? ? Hl Hr]; subst.
    destruct (is_blank l) eqn:Hb.
    + exists [], (l :: r). rewrite app_nil_r. repeat split; auto.
      * right. eauto.
      * rewrite take_prose_cons, table_start_nopipe, Hb by exact Hl.
        destruct acc; [contradiction | reflexivity].
    + destruct (IH (acc ++ [l])) as [p [rest [E [Hp [Hrest Ht]]]]];
        [destruct acc; discriminate | exact Hr |].
      exists (l :: p), rest. subst r. repeat split.
      * constructor; [split; assumption | exact Hp].
      * exact Hrest.
      * rewrite take_prose_cons, table_start_nopipe, Hb by exact Hl. simpl.
        rewrite Ht. now rewrite <- app_assoc.
Qed.

Lemma skip_blank_dec ls :
  (skip_blank ls = [] \/ exists l r, skip_blank ls = l :: r /\ is_blank l = false) /\
  exists pre, ls = pre ++ skip_blank ls.
Proof.
  induction ls as [|l r [IH1 [pre IH2]]].
  - split; [now left | now exists []].
  - simpl. destruct (is_blank l) eqn:Hb.
    + split; [exact IH1|]. exists (l :: pre). simpl. now f_equal.
    + split; [right; eauto | now exists []].
Qed.

Lemma join_chars g c :
  Forall (fun l => line_ok l = true) g -> In c (join 10 g) ->
  c = 10 \/ (plain_char c = true /\ c <> 10).
Proof.
  intros Hg Hc. destruct (in_join 10 g c Hc) as [E | [l [Hl Hcl]]]; [now left|].
  right. rewrite Forall_forall in Hg. exact (line_ok_chars l c (Hg l Hl) Hcl).
Qed.

Lemma strip_join g :
  Forall (fun l => line_ok l = true) g -> stripInlineMarkdown (join 10 g) = join 10 g.
Proof.
  intro Hg. apply strip_id. intros c Hc.
  destruct (join_chars g c Hg Hc) as [-> | [Hp _]]; [split; discriminate|].
  apply plain_char_spec in Hp. tauto.
Qed.

(** The outer loop on plain lines starting with a non-blank line: one
    paragraph per run of non-blank lines. *)
Lemma seg_loop_plain f ls :
  (List.length ls <= f)%nat -> Forall (fun l => line_ok l = true) ls ->
  (ls = [] \/ exists l r, ls = l :: r /\ is_blank l = false) ->
  exists G, seg_loop f ls = map (fun g => Prose (join 10 g)) G /\ Forall good_group G.
Proof.
  revert ls; induction f as [|f IH]; intros ls Hlen Hok Hhd.
  - destruct ls; [|simpl in Hlen; lia]. exists []. split; [reflexivity | constructor].
  - destruct Hhd as [-> | [l [r [-> Hb]]]].
    + exists []. rewrite seg_loop_nil. split; [reflexivity | constructor].
    + inversion Hok as [|? ? Hl Hr]; subst.
      rewrite seg_loop_cons, table_start_nopipe by exact Hl.
      rewrite take_prose_cons, table_start_nopipe, Hb by exact Hl. simpl.
      destruct (take_prose_dec [l] r) as [p [rest [E [Hp [Hrest Ht]]]]];
        [discriminate | exact Hr |].
      rewrite Ht. simpl.
      destruct (skip_blank_dec rest) as [Hs [pre Epre]].
      assert (Hok' : Forall (fun l => line_ok l = true) (skip_blank rest)).
      { subst r. apply Forall_app in Hr. destruct Hr as [_ Hr].
        rewrite Epre in Hr. apply Forall_app in Hr. tauto. }
      destruct (IH (skip_blank rest)) as [G [HG HGg]].
      * pose proof (skip_blank_len rest). subst r. simpl in Hlen.
        rewrite length_app in Hlen. lia.
      * exact Hok'.
      * exact Hs.
      * exists ((l :: p) :: G). split.
        -- assert (Hst : stripInlineMarkdown (join 10 (l :: p)) = join 10 (l :: p)).
           { apply strip_join. constructor; [exact Hl|].
             apply (Forall_impl _ (fun l (H : good_line l) => proj1 H)). exact Hp. }
           rewrite HG. simpl. simpl in Hst. rewrite Hst. reflexivity.
        -- constructor; [|exact HGg]. split; [discriminate|].
           constructor; [split; assumption | exact Hp].
Qed.

(** One paragraph of plain lines, closed by a blank line or the end. *)
Lemma seg_loop_prose f l p rest :
  line_ok l = true -> Forall good_line p -> blank_headed rest ->
  seg_loop (S f) (l :: p ++ rest)
  = Prose (stripInlineMarkdown (join 10 (l :: p))) :: seg_loop f (skip_blank rest).
Proof.
  intros Hl Hp Hr.
  rewrite seg_loop_cons, table_start_nopipe by exact Hl.
  rewrite take_prose_cons, table_start_nopipe by exact Hl.
  cbv beta iota. rewrite andb_false_r.
  rewrite take_prose_plain; [| discriminate | exact Hp | exact Hr].
  change (([] ++ [l]) ++ p) with (l :: p).
  reflexivity.
Qed.

Lemma skip_blank_nonblank l r : is_blank l = false -> skip_blank (l :: r) = l :: r.
Proof. intro H. simpl. now rewrite H. Qed.

Lemma join_app d g h : g <> [] -> h <> [] -> join d (g ++ h) = join d g ++ d :: join d h.
Proof.
  intros Hg Hh. induction g as [|a g IH]; [contradiction|].
  destruct g as [|b g].
  - simpl. destruct h; [contradiction | reflexivity].
  - change ((a :: b :: g) ++ h) with (a :: ((b :: g) ++ h)).
    change (join d (a :: (b :: g) ++ h)) with (a ++ d :: join d ((b :: g) ++ h)).
    rewrite IH by discriminate.
    change (join d (a :: b :: g)) with (a ++ d :: join d (b :: g)).
    now rewrite <- app_assoc.
Qed.

Lemma sep_groups_head l p G : exists r, sep_groups ((l :: p) :: G) = l :: r.
Proof. destruct G; eexists; reflexivity. Qed.

Lemma join_sep_groups G :
  G <> [] -> Forall (fun g => g <> []) G ->
  join_sep [10; 10] (map (join 10) G) = join 10 (sep_groups G).
Proof.
  induction G as [|g G IH]; intros Hne HG; [contradiction|].
  inversion HG as [|? ? Hg HG']; subst.
  destruct G as [|g' G']; [reflexivity|].
  inversion HG' as [|? ? Hg' _]; subst.
  change (join_sep [10; 10] (map (join 10) (g :: g' :: G')))
    with (join 10 g ++ [10; 10] ++ join_sep [10; 10] (map (join 10) (g' :: G'))).
  rewrite IH by (discriminate || assumption).
  change (sep_groups (g :: g' :: G')) with (g ++ [] :: sep_groups (g' :: G')).
  rewrite join_app; [| exact Hg | discriminate].
  destruct g' as [|a g']; [contradiction|].
  destruct (sep_groups_head a g' G') as [r Er]. rewrite Er.
  reflexivity.
Qed.

Lemma in_sep_groups G l : In l (sep_groups G) -> l = [] \/ exists g, In g G /\ In l g.
Proof.
  induction G as [|g G IH]; [intros []|].
  destruct G as [|g' G'].
  - intro H. right. exists g. split; [now left | exact H].
  - change (sep_groups (g :: g' :: G')) with (g ++ [] :: sep_groups (g' :: G')).
    intro H. apply in_app_or in H. destruct H as [H | [H | H]].
    + right. exists g. split; [now left | exact H].
    + left. now symmetry.
    + destruct (IH H) as [E | [g0 [Hg0 Hl]]]; [now left|].
      right. exists g0. split; [now right | exact Hl].
Qed.

(** Paragraphs separated by single blank lines are read back as the same
    paragraphs. *)
Lemma seg_loop_sep G f l p :
  (List.length (sep_groups ((l :: p) :: G)) <= f)%nat ->
  line_ok l = true -> Forall good_line p -> Forall good_group G ->
  seg_loop f (sep_groups ((l :: p) :: G)) = map (fun g => Prose (join 10 g)) ((l :: p) :: G).
Proof.
  revert f l p; induction G as [|g G IH]; intros f l p Hlen Hl Hp HG.
  - change (sep_groups [l :: p]) with (l :: p) in *.
    destruct f as [|f]; [simpl in Hlen; lia|].
    assert (E := seg_loop_prose f l p [] Hl Hp (or_introl eq_refl)).
    rewrite app_nil_r in E. rewrite E.
    change (skip_blank []) with (@nil jsstr). rewrite seg_loop_nil.
    rewrite strip_join; [reflexivity|].
    constructor; [exact Hl|].
    apply (Forall_impl _ (fun l (H : good_line l) => proj1 H)). exact Hp.
  - inversion HG as [|? ? [Hne Hg] HG']; subst.
    destruct g as [|l' p']; [contradiction|].
    inversion Hg as [|? ? [Hl' Hb'] Hp']; subst.
    change (sep_groups ((l :: p) :: (l' :: p') :: G))
      with ((l :: p) ++ [] :: sep_groups ((l' :: p') :: G)) in *.
    change ((l :: p) ++ [] :: sep_groups ((l' :: p') :: G))
      with (l :: p ++ [] :: sep_groups ((l' :: p') :: G)) in *.
    destruct f as [|f]; [simpl in Hlen; lia|].
    rewrite seg_loop_prose; [| exact Hl | exact Hp | right; now exists [], (sep_groups ((l' :: p') :: G))].
    change (skip_blank ([] :: sep_groups ((l' :: p') :: G)))
      with (skip_blank (sep_groups ((l' :: p') :: G))).
    destruct (sep_groups_head l' p' G) as [r Er].
    rewrite Er, skip_blank_nonblank, <- Er by exact Hb'.
    rewrite IH; [| rewrite Er in Hlen |- *; simpl List.length in *;
                   rewrite length_app in Hlen; simpl List.length in Hlen; lia
                 | exact Hl' | exact Hp' | exact HG'].
    rewrite strip_join; [reflexivity|].
    constructor; [exact Hl|].
    apply (Forall_impl _ (fun l (H : good_line l) => proj1 H)). exact Hp.
Qed.

(** A message without pipes, [*], backticks or carriage returns renders as
    paragraphs: the first may start with blank lines, the others and all
    later lines of the first are non-blank. *)
Lemma render_plain x :
  (forall c, In c x -> plain_char c = true) ->
  exists l p G,
    renderMessageContentWithTables x = map (fun g => Prose (join 10 g)) ((l :: p) :: G) /\
    line_ok l = true /\ Forall good_line p /\ Forall good_group G.
Proof.
  intro Hx. unfold renderMessageContentWithTables.
  rewrite crlf_id by (intros c Hc; apply plain_char_spec; now apply Hx).
  assert (Hok : Forall (fun l => line_ok l = true) (split_on 10 x)).
  { apply Forall_forall. intros l Hl. unfold line_ok. apply forallb_forall.
    intros c Hc. destruct (in_split_on 10 x l c Hl Hc) as [Hcx Hc10].
    rewrite Hx by exact Hcx. simpl. apply negb_true_iff, Z.eqb_neq. exact Hc10. }
  pose proof (split_on_nonempty 10 x) as Hne.
  destruct (split_on 10 x) as [|l r]; [contradiction|].
  inversion Hok as [|? ? Hl Hr]; subst.
  destruct (take_prose_dec [l] r) as [p [rest [E [Hp [Hrest _]]]]];
    [discriminate | exact Hr |].
  subst r. unfold seg_lines.
  change (List.length (l :: p ++ rest)) with (S (List.length (p ++ rest))).
  rewrite seg_loop_prose by assumption.
  destruct (skip_blank_dec rest) as [Hs [pre Epre]].
  apply Forall_app in Hr. destruct Hr as [Hpok Hrok].
  destruct (seg_loop_plain (List.length (p ++ rest)) (skip_blank rest)) as [G [HG HGg]].
  - pose proof (skip_blank_len rest). rewrite length_app. lia.
  - rewrite Epre in Hrok. apply Forall_app in Hrok. tauto.
  - exact Hs.
  - exists l, p, G. rewrite HG, strip_join.
    + split; [reflexivity|]. split; [exact Hl|]. split; assumption.
    + constructor; assumption.
Qed.

(* ================================================================== *)
(** * Claims *)

(** C1: after [loadSessions] and any later sequence of operations
    (create, delete, send, reply, sidebar selection) the session list is
    non-empty and [currentSessionId] is the id of one of its sessions;
    deleting the only session leaves exactly one session, a fresh empty
    one named ["新しいチャット"], and it is selected. *)
Theorem C1_current_session_invariant :
  (forall st0 b now rnd ops, store_ok (run st0 (OpLoad b now rnd :: ops))) /\
  (forall st s now rnd,
     sessions st = [s] ->
     let fresh := mkSession (u "session_" ++ num_to_string now ++ u "_" ++ rnd)
                            new_chat_title [] now now in
     sessions (deleteSession (id s) now rnd st) = [fresh] /\
     currentSessionId (deleteSession (id s) now rnd st) = Some (id fresh)).
Proof.
  split.
  - intros st0 b now rnd ops. simpl. apply run_ok, loadSessions_ok.
  - intros st s now rnd Hs fresh. unfold deleteSession. rewrite Hs. simpl.
    rewrite jsstr_eqb_refl. simpl. split; reflexivity.
Qed.

Lemma C1_witness :
  sessions c1_store = [mkSession (u "session_1_a") new_chat_title [] 1 1] /\
  sessions (deleteSession (u "session_1_a") 9 (u "b") c1_store)
  = [mkSession (u "session_" ++ num_to_string 9 ++ u "_" ++ u "b") new_chat_title [] 9 9].
Proof.
  split; [reflexivity|].
  exact (proj1 (proj2 C1_current_session_invariant c1_store
                  (mkSession (u "session_1_a") new_chat_title [] 1 1) 9 (u "b") eq_refl)).
Defined.

(** C6: the sidebar order [listByRecency] is a permutation of the
    sessions, sorted by [updatedAt] descending, and stable: the sessions
    with any given [updatedAt] appear in their original relative order. *)
Theorem C6_listByRecency_stable_sort : forall st,
  Permutation (listByRecency st) (sessions st) /\
  Sorted (fun a b => updatedAt b <= updatedAt a) (listByRecency st) /\
  (forall k, filter (fun s => updatedAt s =? k) (listByRecency st)
             = filter (fun s => updatedAt s =? k) (sessions st)).
Proof.
  intro st. unfold listByRecency. split; [apply sort_by_updated_perm|].
  split; [apply sort_by_updated_sorted | intro k; apply sort_by_updated_stable].
Qed.

(** C10: whatever the persisted settings blob (absent, corrupt or
    parsed), [loadSettings] leaves [temperature] at 0.7 and [maxTokens]
    at [null]; a parsed [apiBaseUrl], [modelId] or [systemPrompt] is
    kept. *)
Theorem C10_loadSettings_resets_sampling :
  (forall blob,
     obj_get (u "temperature") (loadSettings blob) = Some (JNum 7 (-1)) /\
     obj_get (u "maxTokens") (loadSettings blob) = Some JNull) /\
  (forall parsed k v,
     NoDup (map fst parsed) ->
     In k [u "apiBaseUrl"; u "modelId"; u "systemPrompt"] ->
     In (k, v) parsed ->
     obj_get k (loadSettings (SetParsed parsed)) = Some v).
Proof.
  split.
  - intro blob. unfold loadSettings. split.
    + rewrite obj_get_set_other by discriminate. apply obj_get_set_same.
    + apply obj_get_set_same.
  - intros parsed k v Hnd Hk Hin. unfold loadSettings.
    assert (Hm : k <> u "maxTokens")
      by (intros ->; destruct Hk as [H|[H|[H|[]]]]; vm_compute in H; discriminate).
    assert (Ht : k <> u "temperature")
      by (intros ->; destruct Hk as [H|[H|[H|[]]]]; vm_compute in H; discriminate).
    rewrite obj_get_set_other by congruence.
    rewrite obj_get_set_other by congruence.
    now apply spread_get_in.
Qed.

Lemma C10_witness :
  obj_get (u "modelId")
    (loadSettings (SetParsed [(u "modelId", JStr (u "m")); (u "temperature", JNum 1 0)]))
  = Some (JStr (u "m")).
Proof.
  apply (proj2 C10_loadSettings_resets_sampling).
  - repeat constructor; simpl; intuition discriminate.
  - simpl; auto.
  - simpl; auto.
Defined.

(** Pushing to the session with a given id does nothing when no session
    has that id. *)
Lemma update_first_none c f ss : find_session c ss = None -> update_first c f ss = ss.
Proof.
  induction ss as [|s r IH]; simpl; auto.
  destruct (opt_eqb c (id s)); [discriminate|]. intro H. now rewrite IH.
Qed.

(** C3 (amended): there is no [NotFound] error.  The reply is pushed to
    the session object captured before the request; when no session of
    the store has its id any more (it was deleted while the request was
    pending), finishing the send returns normally, keeps the sessions,
    their messages and the current id, and only resets [isSending].
    [handleSend] itself never throws, and returns without any change when
    no session has the current id. *)
Theorem C3_reply_to_deleted_session_noop :
  (forall sid r t2 st, find_session (Some sid) (sessions st) = None ->
     handleSendFinish sid r t2 st = mkStore (sessions st) (currentSessionId st) false) /\
  (forall st input now, getCurrentSession st = None -> handleSend input now st = Normal st) /\
  (forall st input now msg, handleSend input now st <> Throw msg).
Proof.
  split; [|split].
  - intros sid r t2 st H. unfold handleSendFinish, handleSendReply.
    now rewrite update_first_none.
  - intros st input now H. unfold handleSend. rewrite H. now destruct (isSending st).
  - intros st input now msg. unfold handleSend.
    destruct (isSending st); [discriminate|].
    destruct (getCurrentSession st); [|discriminate].
    destruct (is_empty (trim input)); discriminate.
Qed.

Lemma C3_witness :
  find_session (Some (u "session_1_a")) (sessions c3_store) = None /\
  handleSendFinish (u "session_1_a") (Normal (u "ok")) 4 c3_store =
    mkStore (sessions c3_store) (currentSessionId c3_store) false.
Proof.
  split; [vm_compute; reflexivity|].
  apply (proj1 C3_reply_to_deleted_session_noop). vm_compute. reflexivity.
Defined.

(** C3 as stated fails at a reachable state: after [c3_ops] (load, send
    from [session_1_a], delete [session_1_a] while the request is pending)
    no session has the id [session_1_a], yet the reply to that request is
    taken without any error: the store keeps its sessions and current id
    and only [isSending] is reset. *)
Lemma C3_counterexample :
  find_session (Some (u "session_1_a")) (sessions c3_store) = None /\
  isSending c3_store = true /\
  step c3_store (OpReply (u "session_1_a") (u "ok") 4) =
    mkStore (sessions c3_store) (currentSessionId c3_store) false.
Proof. split; [|split]; vm_compute; reflexivity. Qed.

(** C4 (amended): when the first message is appended, the title is the
    trimmed input with whitespace runs collapsed to one space, cut to 30
    code units, and it is never empty (the placeholder fallback is not
    reached); ["  hello   world  "] gives ["hello world"].  A
    whitespace-only input is rejected: nothing is appended and the store,
    titles included, is unchanged. *)
Theorem C4_first_message_title :
  (forall st s input now,
     isSending st = false -> getCurrentSession st = Some s -> messages s = [] ->
     trim input <> [] ->
     exists st', handleSend input now st = Normal st' /\
       getCurrentSession st' =
         Some (mkSession (id s) (slice0 30 (collapse_ws (trim input)))
                         [mkMessage user (trim input) now] (createdAt s) now) /\
       slice0 30 (collapse_ws (trim input)) <> []) /\
  (forall st input now, trim input = [] -> handleSend input now st = Normal st) /\
  slice0 30 (collapse_ws (trim (u "  hello   world  "))) = u "hello world".
Proof.
  split; [|split].
  - intros st s input now Hs Hc Hm Ht.
    rewrite (handleSend_append st s input now Hs Hc Ht).
    eexists; split; [reflexivity|].
    destruct (derive_title_nonempty (trim input) Ht) as [Hd Hne].
    split; [|exact Hne].
    unfold getCurrentSession; simpl. rewrite find_update_first by reflexivity.
    unfold getCurrentSession in Hc. rewrite Hc. simpl. rewrite Hm, Hd. reflexivity.
  - intros st input now H. unfold handleSend. rewrite H.
    destruct (isSending st); auto. destruct (getCurrentSession st); auto.
  - reflexivity.
Qed.

Lemma C4_witness :
  (exists st', handleSend (u "  hello   world  ") 5 c4_store = Normal st' /\
     getCurrentSession st' =
       Some (mkSession (u "session_1_a") (slice0 30 (collapse_ws (trim (u "  hello   world  "))))
                       [mkMessage user (trim (u "  hello   world  ")) 5] 1 5) /\
     slice0 30 (collapse_ws (trim (u "  hello   world  "))) <> []) /\
  handleSend (u "   ") 5 c4_store = Normal c4_store.
Proof.
  split.
  - apply (proj1 C4_first_message_title c4_store
             (mkSession (u "session_1_a") (u "Notes") [] 1 1)); try reflexivity; discriminate.
  - apply (proj1 (proj2 C4_first_message_title)). reflexivity.
Defined.

(** C4 as stated fails: a whitespace-only first message is not appended
    and does not produce the placeholder title; the session keeps its
    title and its empty message list. *)
Lemma C4_counterexample :
  getCurrentSession c4_store = Some (mkSession (u "session_1_a") (u "Notes") [] 1 1) /\
  handleSend (u "   ") 5 c4_store = Normal c4_store /\
  u "Notes" <> new_chat_title.
Proof. split; [reflexivity|]. split; [reflexivity|]. discriminate. Qed.

(** C8 (amended): the user message and the reply of [handleSend] set
    the target session's [updatedAt] to their timestamp.  If the store
    and every loaded session satisfy [createdAt <= updatedAt <= t0] and
    the timestamps of the operations never go back and start at [t0] or
    later, [createdAt <= updatedAt] holds for every session after any
    sequence of operations, and an append never lowers [updatedAt]. *)
Theorem C8_updatedAt_on_append :
  (forall st s input now,
     isSending st = false -> getCurrentSession st = Some s -> trim input <> [] ->
     exists st' s', handleSend input now st = Normal st' /\
       getCurrentSession st' = Some s' /\ updatedAt s' = now /\ createdAt s' = createdAt s) /\
  (forall st sid reply t2 s,
     find_session (Some sid) (sessions st) = Some s ->
     exists s', find_session (Some sid) (sessions (handleSendReply sid reply t2 st)) = Some s' /\
       updatedAt s' = t2 /\ createdAt s' = createdAt s) /\
  (forall t0 st0 ops,
     ts_ok t0 (sessions st0) -> clocked t0 ops ->
     forall s, In s (sessions (run st0 ops)) -> createdAt s <= updatedAt s) /\
  (forall t st s input now st' s',
     ts_ok t (sessions st) -> t <= now -> getCurrentSession st = Some s ->
     handleSend input now st = Normal st' -> getCurrentSession st' = Some s' ->
     updatedAt s <= updatedAt s') /\
  (forall t st sid reply t2 s s',
     ts_ok t (sessions st) -> t <= t2 -> find_session (Some sid) (sessions st) = Some s ->
     find_session (Some sid) (sessions (handleSendReply sid reply t2 st)) = Some s' ->
     updatedAt s <= updatedAt s').
Proof.
  split; [|split; [|split; [|split]]].
  - intros st s input now Hs Hc Ht.
    rewrite (handleSend_append st s input now Hs Hc Ht).
    do 2 eexists; split; [reflexivity|].
    unfold getCurrentSession; simpl. rewrite find_update_first by reflexivity.
    unfold getCurrentSession in Hc. rewrite Hc. simpl.
    split; [reflexivity | split; reflexivity].
  - intros st sid reply t2 s Hf. unfold handleSendReply; simpl.
    rewrite find_update_first by reflexivity. rewrite Hf. simpl.
    eexists; split; [reflexivity | split; reflexivity].
  - intros t0 st0 ops H Hc s Hs. destruct (run_ts t0 st0 ops H Hc) as [t' Ht'].
    specialize (Ht' s Hs). lia.
  - intros t st s input now st' s' Hts Hle Hc Hsend Hc'.
    pose proof (Hts s (find_session_in _ _ _ Hc)) as Hs.
    unfold handleSend in Hsend. destruct (isSending st).
    { inversion Hsend; subst. rewrite Hc in Hc'. inversion Hc'; subst. lia. }
    rewrite Hc in Hsend. destruct (is_empty (trim input)).
    { inversion Hsend; subst. rewrite Hc in Hc'. inversion Hc'; subst. lia. }
    inversion Hsend; subst. unfold getCurrentSession in *; simpl in Hc'.
    rewrite find_update_first in Hc' by reflexivity. rewrite Hc in Hc'.
    inversion Hc'; subst; simpl. lia.
  - intros t st sid reply t2 s s' Hts Hle Hf Hf'.
    pose proof (Hts s (find_session_in _ _ _ Hf)) as Hs.
    unfold handleSendReply in Hf'; simpl in Hf'.
    rewrite find_update_first in Hf' by reflexivity. rewrite Hf in Hf'.
    inversion Hf'; subst; simpl. lia.
Qed.

Lemma C8_witness :
  (exists st' s', handleSend (u "hi") 5 c8_store = Normal st' /\
     getCurrentSession st' = Some s' /\ updatedAt s' = 5 /\ createdAt s' = createdAt c8_session) /\
  (exists s', find_session (Some (u "session_1_a"))
                (sessions (handleSendReply (u "session_1_a") (u "ok") 6 c8_store)) = Some s' /\
     updatedAt s' = 6 /\ createdAt s' = createdAt c8_session) /\
  (forall s, In s (sessions (run c8_store [OpSend (u "hi") 5; OpReply (u "session_1_a") (u "ok") 6]))
             -> createdAt s <= updatedAt s) /\
  (exists st' s', handleSend (u "hi") 5 c8_store = Normal st' /\
     getCurrentSession st' = Some s' /\ updatedAt c8_session <= updatedAt s') /\
  (exists s', find_session (Some (u "session_1_a"))
                (sessions (handleSendReply (u "session_1_a") (u "ok") 6 c8_store)) = Some s' /\
     updatedAt c8_session <= updatedAt s').
Proof.
  destruct C8_updatedAt_on_append as [H1 [H2 [H3 [H4 H5]]]].
  split; [apply H1; try reflexivity; discriminate|].
  split; [apply H2; reflexivity|].
  split.
  - apply (H3 1); [intros s [<-|[]]; simpl; lia | ].
    simpl. unfold op_ok, next_time; simpl.
    repeat split; lia.
  - split.
    + destruct (H1 c8_store c8_session (u "hi") 5 eq_refl eq_refl ltac:(discriminate))
        as [st' [s' [E [G _]]]].
      exists st', s'. split; [exact E|]. split; [exact G|].
      apply (H4 1 c8_store c8_session (u "hi") 5 st' s');
        [intros s [<-|[]]; simpl; lia | lia | reflexivity | exact E | exact G].
    + destruct (H2 c8_store (u "session_1_a") (u "ok") 6 c8_session eq_refl) as [s' [F _]].
      exists s'. split; [exact F|].
      apply (H5 1 c8_store (u "session_1_a") (u "ok") 6 c8_session s');
        [intros s [<-|[]]; simpl; lia | lia | reflexivity | exact F].
Defined.

(** C8 as stated fails: the timestamps are taken as given.  A session
    created at time 5 that receives a message stamped 3 has [updatedAt <
    createdAt]; a loaded session with [updatedAt = 10] drops to 4 on an
    append stamped 4, although the append timestamps 4, 6 are
    non-decreasing. *)
Lemma C8_counterexample :
  ~ (forall ops s, In s (sessions (run init_store ops)) -> createdAt s <= updatedAt s) /\
  option_map updatedAt
    (getCurrentSession (run init_store [OpLoad (SParsed [c8_loaded]) 20 (u "r")])) = Some 10 /\
  option_map updatedAt
    (getCurrentSession (run init_store [OpLoad (SParsed [c8_loaded]) 20 (u "r");
                                        OpSend (u "a") 4])) = Some 4 /\
  option_map updatedAt
    (getCurrentSession (run init_store [OpLoad (SParsed [c8_loaded]) 20 (u "r");
                                        OpSend (u "a") 4; OpReply (u "s") (u "b") 6])) = Some 6.
Proof.
  split; [|split; [|split]]; try reflexivity.
  intro H.
  specialize (H [OpLoad (SParsed []) 5 (u "r"); OpSend (u "hi") 3]
                (mkSession (u "session_" ++ num_to_string 5 ++ u "_" ++ u "r")
                           (u "hi") [mkMessage user (u "hi") 3] 5 3)).
  assert (5 <= 3) by (apply H; vm_compute; left; reflexivity). lia.
Qed.

(** C7 as stated fails: search returns the matches in the order of the
    session array, here the reverse of [listByRecency]. *)
Lemma C7_counterexample :
  map id (searchChat ascii_lower (u "chat") c7_store) = [u "session_2_b"; u "session_1_a"] /\
  map id (listByRecency c7_store) = [u "session_1_a"; u "session_2_b"].
Proof. split; vm_compute; reflexivity. Qed.

(** C7 (amended): the query is trimmed and lowercased; an empty or
    whitespace-only query gives no result; otherwise the result is the
    sessions of the store's array, in that order, whose non-empty
    lowercased title or some lowercased message content contains the
    query.  That order is the [listByRecency] order whenever the array is
    itself in recency order, as it is right after [loadSessions]; and a
    session titled "Weather" matches "weather". *)
Theorem C7_search_order :
  forall lower : jsstr -> jsstr, lower [] = [] ->
  (forall st kw, trim kw = [] -> searchChat lower kw st = []) /\
  (forall st kw, lower (trim kw) <> [] ->
     searchChat lower kw st = filter (matches lower (lower (trim kw))) (sessions st)) /\
  (forall st kw, Sorted desc (sessions st) ->
     searchChat lower kw st = searchChat lower kw (set_sessions st (listByRecency st))) /\
  (forall b now rnd st0, Sorted desc (sessions (loadSessions b now rnd st0))) /\
  searchChat ascii_lower (u "weather")
    (mkStore [mkSession (u "s") (u "Weather") [] 1 1] (Some (u "s")) false)
  = [mkSession (u "s") (u "Weather") [] 1 1].
Proof.
  intros lower Hl. split; [|split; [|split; [|split]]].
  - intros st kw H. unfold searchChat. now rewrite H, Hl.
  - intros st kw H. unfold searchChat. now rewrite is_empty_false.
  - intros st kw H. unfold listByRecency. simpl.
    now rewrite (sort_by_updated_id_of_sorted _ H).
  - apply loadSessions_sorted.
  - reflexivity.
Qed.

Lemma C7_witness :
  searchChat ascii_lower (u "  ") c7_store = [] /\
  map id (searchChat ascii_lower (u " CHAT ") (loadSessions SAbsent 9 (u "c") c7_store))
  = map id (searchChat ascii_lower (u " CHAT ")
              (set_sessions (loadSessions SAbsent 9 (u "c") c7_store)
                            (listByRecency (loadSessions SAbsent 9 (u "c") c7_store)))).
Proof.
  destruct (C7_search_order ascii_lower eq_refl) as [H1 [_ [H3 [H4 _]]]].
  split; [apply H1; reflexivity|].
  f_equal; apply H3, H4.
Defined.

Lemma seg_loop_at_cons f line r :
  seg_loop_at (S f) (line :: r) =
  if table_start (line :: r) then
    match r with
    | _ :: body =>
        let (rows, rest) := take_rows body in
        (line :: r, Table (splitMarkdownRow line) rows) :: seg_loop_at f rest
    | [] => []
    end
  else
    let (normalLines, rest) := take_prose [] (line :: r) in
    match normalLines with
    | [] => []
    | _ => [(line :: r, Prose (stripInlineMarkdown (join 10 normalLines)))]
    end ++ seg_loop_at f (skip_blank rest).
Proof. reflexivity. Qed.

(** The annotated loop renders the same blocks. *)
Lemma seg_loop_at_snd f ls : map snd (seg_loop_at f ls) = seg_loop f ls.
Proof.
  revert ls; induction f as [|f IH]; intros [|l r]; try reflexivity.
  rewrite seg_loop_at_cons, seg_loop_cons.
  destruct (table_start (l :: r)).
  - destruct r as [|l2 body]; [reflexivity|].
    destruct (take_rows body) as [rows rest]. simpl. now rewrite IH.
  - destruct (take_prose [] (l :: r)) as [nl rest].
    rewrite map_app, IH. destruct nl; reflexivity.
Qed.

(** The rows loop consumes as many lines as it returns rows. *)
Lemma take_rows_skipn body :
  (List.length (fst (take_rows body)) <= List.length body)%nat /\
  snd (take_rows body) = skipn (List.length (fst (take_rows body))) body.
Proof.
  induction body as [|l r IH]; simpl; [split; [lia|reflexivity]|].
  destruct (negb (starts_pipe (trim l)) || isTableSeparatorLine l || is_empty (trim l));
    simpl; [split; [lia|reflexivity]|].
  destruct (take_rows r) as [rows rest]. simpl in *. destruct IH as [H1 H2].
  split; [lia|exact H2].
Qed.

(** The paragraph loop takes the lines at which no table starts. *)
Lemma take_prose_split acc ls :
  exists ext, take_prose acc ls = (acc ++ ext, skipn (List.length ext) ls) /\
    (List.length ext <= List.length ls)%nat /\
    forall j, (j < List.length ext)%nat -> table_start (skipn j ls) = false.
Proof.
  revert acc; induction ls as [|l r IH]; intro acc.
  - exists []. rewrite app_nil_r. split; [reflexivity|]. split; [simpl; lia|].
    intros j Hj; simpl in Hj; lia.
  - rewrite take_prose_cons. destruct (table_start (l :: r)) eqn:Ht.
    + exists []. rewrite app_nil_r. split; [reflexivity|]. split; [simpl; lia|].
      intros j Hj; simpl in Hj; lia.
    + destruct (is_blank l && negb match acc with [] => true | _ :: _ => false end).
      * exists []. rewrite app_nil_r. split; [reflexivity|]. split; [simpl; lia|].
        intros j Hj; simpl in Hj; lia.
      * destruct (IH (acc ++ [l])) as [ext [E [Hl Hj]]].
        exists (l :: ext). rewrite E, <- app_assoc. split; [reflexivity|].
        split; [simpl; lia|].
        intros [|j] Hj'; [exact Ht|]. apply Hj. simpl in Hj'. lia.
Qed.

(** No table starts at a blank line. *)
Lemma blank_no_table l r : is_blank l = true -> table_start (l :: r) = false.
Proof.
  intro Hb. assert (Hs : starts_pipe (trim l) = false)
    by (unfold is_blank, is_empty in Hb; destruct (trim l); [reflexivity|discriminate]).
  destruct r as [|l2 r]; [reflexivity|].
  change (table_start (l :: l2 :: r)) with (starts_pipe (trim l) && isTableSeparatorLine l2).
  now rewrite Hs.
Qed.

(** The blank-skipping loop passes over lines at which no table starts. *)
Lemma skip_blank_split ls :
  exists b, skip_blank ls = skipn b ls /\ (b <= List.length ls)%nat /\
    forall j, (j < b)%nat -> table_start (skipn j ls) = false.
Proof.
  induction ls as [|l r IH].
  - exists 0%nat. split; [reflexivity|]. split; [simpl; lia|]. intros j Hj; lia.
  - simpl skip_blank. destruct (is_blank l) eqn:Eb.
    + destruct IH as [b [E [Hl Hj]]]. exists (S b). split; [exact E|].
      split; [simpl; lia|].
      intros [|j] Hj'; [now apply blank_no_table|]. apply Hj. lia.
    + exists 0%nat. split; [reflexivity|]. split; [simpl; lia|]. intros j Hj; lia.
Qed.

(** Equal non-empty suffixes start at the same position. *)
Lemma skipn_eq_pos {A} (ls : list A) a c :
  skipn a ls = skipn c ls -> skipn a ls <> [] -> a = c.
Proof.
  intros E N.
  assert (Ha : (a < List.length ls)%nat).
  { destruct (Nat.lt_ge_cases a (List.length ls)) as [H|H]; [exact H|].
    exfalso. apply N. now apply skipn_all2. }
  assert (Hc : (c < List.length ls)%nat).
  { destruct (Nat.lt_ge_cases c (List.length ls)) as [H|H]; [exact H|].
    exfalso. apply N. rewrite E. now apply skipn_all2. }
  pose proof (f_equal (@List.length A) E) as L. rewrite !length_skipn in L. lia.
Qed.

Lemma skipn_shift {A} (ls : list A) p j : skipn (p + j) ls = skipn j (skipn p ls).
Proof. rewrite skipn_skipn. f_equal. lia. Qed.

(** Every block starts at a line of the input. *)
Lemma seg_loop_at_suffix f ls s sg :
  In (s, sg) (seg_loop_at f ls) -> exists m, (m < List.length ls)%nat /\ s = skipn m ls.
Proof.
  revert ls; induction f as [|f IH]; intros [|l r]; try (simpl; contradiction).
  rewrite seg_loop_at_cons. destruct (table_start (l :: r)).
  - destruct r as [|l2 body]; [contradiction|].
    destruct (take_rows_skipn body) as [Hk Hr].
    destruct (take_rows body) as [rows rest]. simpl in Hk, Hr. subst rest.
    intros [E|H].
    + injection E as <- _. exists 0%nat. split; [simpl; lia|reflexivity].
    + destruct (IH _ H) as [m [Hm ->]]. rewrite length_skipn in Hm.
      exists (2 + List.length rows + m)%nat. split; [simpl; lia|].
      rewrite skipn_shift. reflexivity.
  - destruct (take_prose_split [] (l :: r)) as [ext [E [Hl _]]]. rewrite E.
    destruct (skip_blank_split (skipn (List.length ext) (l :: r))) as [b [Eb [Hb _]]].
    rewrite Eb, skipn_skipn. intro H. apply in_app_or in H as [H|H].
    + destruct ext; simpl in H; [contradiction|].
      destruct H as [H|[]]. injection H as <- _. exists 0%nat. split; [simpl; lia|reflexivity].
    + destruct (IH _ H) as [m [Hm ->]]. rewrite length_skipn in Hm.
      exists (b + List.length ext + m)%nat. split; [lia|].
      rewrite (skipn_shift _ (b + List.length ext)). reflexivity.
Qed.

(** The blocks after the first one start at or after position [p]. *)
Lemma tail_pos f ls p j sg :
  In (skipn j ls, sg) (seg_loop_at f (skipn p ls)) ->
  exists j', j = (p + j')%nat /\ In (skipn j' (skipn p ls), sg) (seg_loop_at f (skipn p ls)).
Proof.
  intro H. destruct (seg_loop_at_suffix _ _ _ _ H) as [m [Hm E]].
  assert (N : skipn m (skipn p ls) <> []).
  { intro Z. pose proof (f_equal (@List.length _) Z) as L.
    rewrite length_skipn in L. simpl in L. lia. }
  rewrite <- skipn_shift in E.
  assert (j = (p + m)%nat) by (apply skipn_eq_pos with ls; [exact E | now rewrite E, skipn_shift]).
  exists m. split; [exact H0|]. rewrite <- skipn_shift, <- H0. exact H.
Qed.

(** Shifting the table-start characterisation over a first block that
    ends before position [p]. *)
Lemma blocks_shift f ls p hd i' :
  (1 <= p)%nat -> ls <> [] ->
  (forall h rows, hd = (ls, Table h rows) -> (1 + List.length rows < p)%nat) ->
  fst hd = ls ->
  ((exists h rows, In (skipn (p + i') ls, Table h rows) (hd :: seg_loop_at f (skipn p ls))) <->
   (exists h rows, In (skipn i' (skipn p ls), Table h rows) (seg_loop_at f (skipn p ls)))) /\
  ((exists j h rows, In (skipn j ls, Table h rows) (hd :: seg_loop_at f (skipn p ls)) /\
                     (j < p + i' <= j + 1 + List.length rows)%nat) <->
   (exists j h rows, In (skipn j (skipn p ls), Table h rows) (seg_loop_at f (skipn p ls)) /\
                     (j < i' <= j + 1 + List.length rows)%nat)).
Proof.
  intros Hp Hne Hhd Hfst.
  assert (Nhead : forall k, (1 <= k)%nat -> skipn k ls <> ls).
  { intros k Hk E. pose proof (f_equal (@List.length _) E) as L. rewrite length_skipn in L.
    destruct ls as [|x ls']; [contradiction|].
    change (List.length (x :: ls')) with (S (List.length ls')) in L. lia. }
  split; split.
  - intros [h [rows [E|H]]].
    + exfalso. destruct hd as [s sg]. simpl in Hfst. subst s. injection E as E _.
      apply (Nhead (p + i')%nat); [lia|]. congruence.
    + destruct (tail_pos _ _ _ _ _ H) as [j' [Ej H']].
      assert (j' = i') by lia. subst j'. eauto.
  - intros [h [rows H]]. exists h, rows. right. now rewrite skipn_shift.
  - intros [j [h [rows [[E|H] Hj]]]].
    + exfalso. destruct hd as [s sg]. simpl in Hfst. subst s.
      injection E as E1 E2.
      assert (j = 0%nat).
      { destruct j as [|j]; [reflexivity|]. exfalso. apply (Nhead (S j)); [lia|]. congruence. }
      subst j. specialize (Hhd h rows). rewrite E2 in Hhd. specialize (Hhd eq_refl). lia.
    + destruct (tail_pos _ _ _ _ _ H) as [j' [Ej H']]. subst j.
      exists j', h, rows. split; [exact H'|lia].
  - intros [j [h [rows [H Hj]]]]. exists (p + j)%nat, h, rows. split; [|lia].
    right. now rewrite skipn_shift.
Qed.

(** In one run of the outer loop, a table starts at line [i] exactly when
    the table-start test holds there and line [i] is not the separator or a
    body row of a table started above it. *)
Lemma seg_loop_at_tables f ls :
  (List.length ls <= f)%nat -> forall i,
  (exists h rows, In (skipn i ls, Table h rows) (seg_loop_at f ls)) <->
  table_start (skipn i ls) = true /\
  ~ (exists j h rows, In (skipn j ls, Table h rows) (seg_loop_at f ls) /\
                      (j < i <= j + 1 + List.length rows)%nat).
Proof.
  revert ls; induction f as [|f IH]; intros ls Hlen i.
  - destruct ls; [|simpl in Hlen; lia]. simpl. rewrite skipn_nil.
    split; [intros [h [rows []]] | intros [H _]; discriminate].
  - destruct ls as [|l r].
    { simpl. rewrite skipn_nil. split; [intros [h [rows []]] | intros [H _]; discriminate]. }
    rewrite seg_loop_at_cons. destruct (table_start (l :: r)) eqn:Ht.
    + destruct r as [|l2 body]; [discriminate|].
      destruct (take_rows_skipn body) as [Hk Hr].
      destruct (take_rows body) as [rows rest]. simpl in Hk, Hr. subst rest.
      set (ls := l :: l2 :: body).
      change (skipn (List.length rows) body) with (skipn (2 + List.length rows) ls).
      set (hd := (ls, Table (splitMarkdownRow l) rows)).
      assert (Hfuel : (List.length (skipn (2 + List.length rows) ls) <= f)%nat)
        by (rewrite length_skipn; simpl in Hlen |- *; lia).
      destruct (Nat.lt_ge_cases i (2 + List.length rows)) as [Hi|Hi].
      * destruct (Nat.eq_dec i 0) as [->|Hi0].
        -- simpl skipn. split.
           ++ intros _. split; [exact Ht|]. intros [j [h [rs [_ Hj]]]]. lia.
           ++ intros _. exists (splitMarkdownRow l), rows. now left.
        -- split.
           ++ intros [h [rs [E|H]]].
              ** exfalso. injection E as E _.
                 pose proof (f_equal (@List.length _) E) as L.
                 rewrite length_skipn in L. unfold ls in L.
                 change (List.length (l :: l2 :: body)) with (S (S (List.length body))) in L.
                 lia.
              ** destruct (tail_pos _ _ _ _ _ H) as [j' [Ej _]]. lia.
           ++ intros [_ Hn]. exfalso. apply Hn.
              exists 0%nat, (splitMarkdownRow l), rows. split; [now left | lia].
      * replace i with (2 + List.length rows + (i - (2 + List.length rows)))%nat by lia.
        set (i' := (i - (2 + List.length rows))%nat).
        destruct (blocks_shift f ls (2 + List.length rows) hd i') as [S1 S2].
        { lia. } { discriminate. }
        { intros h rs E. injection E as _ <-. lia. } { reflexivity. }
        rewrite S1, S2, (skipn_shift ls (2 + List.length rows) i'). apply IH. exact Hfuel.
    + destruct (take_prose_split [] (l :: r)) as [ext [E [Hl Hj]]]. rewrite E.
      destruct (skip_blank_split (skipn (List.length ext) (l :: r))) as [b [Eb [Hb Hbj]]].
      rewrite Eb, skipn_skipn.
      rewrite take_prose_cons, Ht in E. simpl in E. rewrite andb_false_r in E.
      destruct (take_prose_fst [l] r) as [ext' Hext]. rewrite E in Hext. simpl in Hext.
      destruct ext as [|e ext]; [discriminate|]. simpl app.
      change (List.length (e :: ext)) with (S (List.length ext)) in *.
      set (p := (b + S (List.length ext))%nat).
      assert (Hp1 : (1 <= p)%nat) by (unfold p; lia).
      rewrite length_skipn in Hb.
      assert (Hfuel : (List.length (skipn p (l :: r)) <= f)%nat).
      { rewrite length_skipn. change (List.length (l :: r)) with (S (List.length r)) in *. lia. }
      assert (Hno : forall k, (k < p)%nat -> table_start (skipn k (l :: r)) = false).
      { intros k Hk. destruct (Nat.lt_ge_cases k (S (List.length ext))) as [Hk'|Hk'].
        - now apply Hj.
        - replace k with (S (List.length ext) + (k - S (List.length ext)))%nat by lia.
          rewrite skipn_shift. apply Hbj. unfold p in Hk. lia. }
      match goal with |- context [(l :: r, ?sg) :: _] => set (hd := (l :: r, sg)) end.
      destruct (Nat.lt_ge_cases i p) as [Hi|Hi].
      * rewrite (Hno i Hi). split; [|intros [H _]; discriminate].
        intros [h [rows [E'|H]]]; [discriminate E'|].
        destruct (tail_pos _ _ _ _ _ H) as [j' [Ej _]]. lia.
      * replace i with (p + (i - p))%nat by lia.
        destruct (blocks_shift f (l :: r) p hd (i - p)) as [S1 S2].
        { exact Hp1. } { discriminate. } { intros h rs E'. discriminate E'. } { reflexivity. }
        rewrite S1, S2, (skipn_shift (l :: r) p (i - p)). apply IH. exact Hfuel.
Qed.

(** The table-start test on the suffix [lines[i..]], in the words of the
    source. *)
Lemma table_start_at lines i :
  table_start (skipn i lines) = true <->
  (exists l l2, nth_error lines i = Some l /\ nth_error lines (S i) = Some l2 /\
                starts_pipe (trim l) = true /\ sep_spec l2).
Proof.
  split.
  - intro H. destruct (skipn i lines) as [|l [|l2 r]] eqn:E; try discriminate.
    exists l, l2. apply andb_true_iff in H as [H1 H2].
    destruct (proj1 (skipn_two lines i l l2) (ex_intro _ r E)) as [N1 N2].
    split; [exact N1|]. split; [exact N2|]. split; [exact H1|].
    now apply isTableSeparatorLine_spec.
  - intros [l [l2 [N1 [N2 [H1 H2]]]]].
    destruct (proj2 (skipn_two lines i l l2) (conj N1 N2)) as [r E].
    rewrite E. simpl. rewrite H1. simpl. now apply isTableSeparatorLine_spec.
Qed.

(** C2 (amended): [seg_blocks] renders the same blocks as the renderer,
    each paired with the line its iteration began at.  The table-start
    test (line [i], trimmed, starts with a pipe, and line [i+1] is a
    separator line: trimmed, starts with a pipe, only pipes, whitespace,
    colons and hyphens, at least one hyphen) is made at every line where a
    block begins and at every line of a paragraph, but not at the
    separator and body rows of a table.  So in one rendering a table
    starts at line [i] exactly when the test holds at [i] and line [i] is
    not the separator or a body row of a table started above it.
    ["|a|b|\n|-|-|\n|1|2|"] gives one table with header [a, b] and row
    [1, 2]; with the separator ["|--|"] the same table is recognised; and
    in ["hello\n|a|\n|-|"] a table starts after the paragraph. *)
Theorem C2_table_start_in_rendering :
  (forall lines, map snd (seg_blocks lines) = seg_lines lines) /\
  (forall lines i,
     (exists h rows, In (skipn i lines, Table h rows) (seg_blocks lines)) <->
     (exists l l2, nth_error lines i = Some l /\ nth_error lines (S i) = Some l2 /\
                   starts_pipe (trim l) = true /\ sep_spec l2) /\
     ~ (exists j h rows, In (skipn j lines, Table h rows) (seg_blocks lines) /\
                         (j < i <= j + 1 + List.length rows)%nat)) /\
  renderMessageContentWithTables (unlines ["|a|b|"; "|-|-|"; "|1|2|"]%string)
    = [Table [u "a"; u "b"] [[u "1"; u "2"]]] /\
  renderMessageContentWithTables (unlines ["|a|b|"; "|--|"; "|1|2|"]%string)
    = [Table [u "a"; u "b"] [[u "1"; u "2"]]] /\
  renderMessageContentWithTables (unlines ["hello"; "|a|"; "|-|"]%string)
    = [Prose (u "hello"); Table [u "a"] []].
Proof.
  split; [|split; [|split; [|split]]]; try reflexivity.
  - intro lines. apply seg_loop_at_snd.
  - intros lines i. unfold seg_blocks. rewrite seg_loop_at_tables by lia.
    now rewrite table_start_at.
Qed.

(** At line 2 of ["|a|\n|-|\n|b|\n|-|"] the test holds, but that line is
    the first body row of the table started at line 0: no table starts
    there. *)
Lemma C2_witness :
  (exists l l2,
     nth_error (split_on 10 (unlines ["|a|"; "|-|"; "|b|"; "|-|"]%string)) 2 = Some l /\
     nth_error (split_on 10 (unlines ["|a|"; "|-|"; "|b|"; "|-|"]%string)) 3 = Some l2 /\
     starts_pipe (trim l) = true /\ sep_spec l2) /\
  ~ (exists h rows,
       In (skipn 2 (split_on 10 (unlines ["|a|"; "|-|"; "|b|"; "|-|"]%string)), Table h rows)
          (seg_blocks (split_on 10 (unlines ["|a|"; "|-|"; "|b|"; "|-|"]%string)))).
Proof.
  split.
  - exists (u "|b|"), (u "|-|"). split; [reflexivity|]. split; [reflexivity|].
    split; [reflexivity|]. apply isTableSeparatorLine_spec. reflexivity.
  - intro H. apply (proj1 (proj2 C2_table_start_in_rendering)) in H as [_ Hn].
    apply Hn. exists 0%nat, [u "a"], [[u "b"]]. split; [|simpl; lia].
    vm_compute. left. reflexivity.
Defined.

(** C2 as stated fails: at line 2 of ["|a|\n|-|\n|b|\n|-|"] the current
    line, trimmed, starts with a pipe and the next line is a separator
    line, yet the rendering is one table with header [a] and the single
    row [b], followed by the paragraph ["|-|"]: no table starts at line 2. *)
Lemma C2_counterexample :
  (exists l l2,
     nth_error (split_on 10 (unlines ["|a|"; "|-|"; "|b|"; "|-|"]%string)) 2 = Some l /\
     nth_error (split_on 10 (unlines ["|a|"; "|-|"; "|b|"; "|-|"]%string)) 3 = Some l2 /\
     starts_pipe (trim l) = true /\ sep_spec l2) /\
  renderMessageContentWithTables (unlines ["|a|"; "|-|"; "|b|"; "|-|"]%string)
    = [Table [u "a"] [[u "b"]]; Prose (u "|-|")].
Proof.
  split; [|reflexivity].
  exists (u "|b|"), (u "|-|"). split; [reflexivity|]. split; [reflexivity|].
  split; [reflexivity|]. apply isTableSeparatorLine_spec. reflexivity.
Qed.

(** C5 (code evaluated): a blank line ending a paragraph is dropped,
    ["hello\n\nworld"] gives the two paragraphs ["hello"] and ["world"];
    but blank lines before any content are not skipped: at the start of
    the input, or right after a table, the first blank line is taken into
    the next paragraph, and ["\n\nworld"] yields an empty paragraph before
    ["world"]. *)
Theorem C5_leading_blank_lines :
  renderMessageContentWithTables (unlines ["hello"; ""; "world"]%string)
    = [Prose (u "hello"); Prose (u "world")] /\
  renderMessageContentWithTables (unlines [""; ""; "world"]%string)
    = [Prose []; Prose (u "world")] /\
  renderMessageContentWithTables (unlines [""; "hello"]%string)
    = [Prose (unlines [""; "hello"]%string)] /\
  renderMessageContentWithTables (unlines ["|a|"; "|-|"; ""; "foo"]%string)
    = [Table [u "a"] []; Prose (unlines [""; "foo"]%string)].
Proof. repeat split; reflexivity. Qed.

(** C9 (counterexample): segmenting the rendered plain text again is not
    stable.  ["``a``"] renders as the paragraph ["`a`"], whose text renders
    as ["a"]; and ["`|a`\n|-|"] renders as the paragraph ["|a\n|-|"], whose
    text renders as a table.  Both outputs are a single paragraph, so any
    reading of the blocks as text gives the paragraph's text here. *)
Lemma C9_counterexample :
  renderMessageContentWithTables (joinSegmentsBackToText
    (renderMessageContentWithTables (u "``a``")))
    <> renderMessageContentWithTables (u "``a``") /\
  renderMessageContentWithTables (u "``a``") = [Prose (u "`a`")] /\
  renderMessageContentWithTables (joinSegmentsBackToText
    (renderMessageContentWithTables (u "``a``"))) = [Prose (u "a")] /\
  renderMessageContentWithTables (unlines ["`|a`"; "|-|"]%string)
    = [Prose (unlines ["|a"; "|-|"]%string)] /\
  renderMessageContentWithTables (joinSegmentsBackToText
    (renderMessageContentWithTables (unlines ["`|a`"; "|-|"]%string)))
    = [Table [u "a"] []].
Proof.
  split; [intro H; vm_compute in H; discriminate H|].
  repeat split; reflexivity.
Qed.

(** C9 (corrected): for a message containing no pipe, no [*], no backtick
    and no carriage return, every rendered block is a paragraph, and
    rendering the plain text of the blocks (paragraphs separated by a blank
    line) gives the same blocks again. *)
Theorem C9_plain_text_idempotent : forall x,
  forallb plain_char x = true ->
  (forall s, In s (renderMessageContentWithTables x) -> exists t, s = Prose t) /\
  renderMessageContentWithTables (joinSegmentsBackToText (renderMessageContentWithTables x))
    = renderMessageContentWithTables x.
Proof.
  intros x Hx.
  assert (Hxc : forall c, In c x -> plain_char c = true) by (apply forallb_forall; exact Hx).
  destruct (render_plain x Hxc) as [l [p [G [E [Hl [Hp HG]]]]]].
  rewrite E. split.
  - intros s Hs. apply in_map_iff in Hs. destruct Hs as [g [<- _]]. eauto.
  - assert (Hlines : forall l0, In l0 (sep_groups ((l :: p) :: G)) -> line_ok l0 = true).
    { intros l0 H0. destruct (in_sep_groups _ l0 H0) as [-> | [g [Hg Hl0]]]; [reflexivity|].
      destruct Hg as [<- | Hg].
      - destruct Hl0 as [<- | Hl0]; [exact Hl|].
        rewrite Forall_forall in Hp. exact (proj1 (Hp l0 Hl0)).
      - rewrite Forall_forall in HG. destruct (HG g Hg) as [_ Hg'].
        rewrite Forall_forall in Hg'. exact (proj1 (Hg' l0 Hl0)). }
    unfold joinSegmentsBackToText. rewrite map_map.
    change (map (fun g => segment_text (Prose (join 10 g))) ((l :: p) :: G))
      with (map (join 10) ((l :: p) :: G)).
    rewrite join_sep_groups; [| discriminate |].
    2:{ constructor; [discriminate|].
        apply (Forall_impl _ (fun g (H : good_group g) => proj1 H)). exact HG. }
    unfold renderMessageContentWithTables.
    rewrite crlf_id.
    2:{ intros c Hc. apply join_chars in Hc; [| apply Forall_forall; exact Hlines].
        destruct Hc as [-> | [Hc _]]; [discriminate|]. apply plain_char_spec in Hc. tauto. }
    rewrite split_join.
    2:{ destruct (sep_groups_head l p G) as [r ->]. discriminate. }
    2:{ intros l0 H0 Hin. destruct (line_ok_chars l0 10 (Hlines l0 H0) Hin). tauto. }
    unfold seg_lines. apply seg_loop_sep; auto.
Qed.

Lemma C9_witness :
  forallb plain_char (unlines [""; "hello"; "there"; ""; ""; "world"]%string) = true /\
  (forall s, In s (renderMessageContentWithTables
                     (unlines [""; "hello"; "there"; ""; ""; "world"]%string)) ->
             exists t, s = Prose t) /\
  renderMessageContentWithTables (joinSegmentsBackToText (renderMessageContentWithTables
    (unlines [""; "hello"; "there"; ""; ""; "world"]%string)))
    = renderMessageContentWithTables (unlines [""; "hello"; "there"; ""; ""; "world"]%string).
Proof.
  split; [reflexivity|].
  apply C9_plain_text_idempotent. reflexivity.
Defined.

(* ================================================================== *)
(** * Further properties of the code *)

(** ** Table rows and inline markup *)

Lemma take_rows_spec body :
  exists pre rest,
    body = pre ++ rest /\ forallb row_line pre = true /\
    match rest with [] => True | l :: _ => row_line l = false end /\
    take_rows body = (map splitMarkdownRow pre, rest).
Proof.
  induction body as [|a body IH].
  - exists [], []. repeat split; reflexivity.
  - change (take_rows (a :: body)) with
      (if negb (starts_pipe (trim a)) || isTableSeparatorLine a || is_empty (trim a)
       then ([], a :: body)
       else let (rows, rest) := take_rows body in (splitMarkdownRow a :: rows, rest)).
    assert (Hr : row_line a =
                 negb (negb (starts_pipe (trim a)) || isTableSeparatorLine a
                       || is_empty (trim a))).
    { unfold row_line. destruct (trim a) as [|c t]; cbn [negb orb andb starts_pipe is_empty].
      - reflexivity.
      - destruct (isTableSeparatorLine a), (c =? 124); reflexivity. }
    destruct (negb (starts_pipe (trim a)) || isTableSeparatorLine a || is_empty (trim a)).
    + exists [], (a :: body). repeat split. exact Hr.
    + destruct IH as (pre & rest & E & Hf & Hl & Ht). rewrite Ht.
      exists (a :: pre), rest. rewrite E. repeat split; auto.
      simpl. now rewrite Hr, Hf.
Qed.

Lemma bold_close_end t acc :
  (forall c, In c t -> c <> 42 /\ is_lt c = false) ->
  bold_close acc (t ++ [42; 42]) = Some (acc ++ t, []).
Proof.
  revert acc; induction t as [|a t IH]; intros acc H.
  - simpl. now rewrite app_nil_r.
  - destruct (H a (or_introl eq_refl)) as [Ha Hl].
    change ((a :: t) ++ [42; 42]) with (a :: (t ++ [42; 42])).
    assert (Ht : bold_close acc (a :: t ++ [42; 42]) = bold_close (acc ++ [a]) (t ++ [42; 42])).
    { destruct t as [|b t]; simpl;
        rewrite (proj2 (Z.eqb_neq a 42) Ha), Hl; reflexivity. }
    rewrite Ht, IH by (intros c Hc; apply H; now right).
    now rewrite <- app_assoc.
Qed.

Lemma code_close_end t acc :
  (forall c, In c t -> c <> 96) -> code_close acc (t ++ [96]) = Some (acc ++ t, []).
Proof.
  revert acc; induction t as [|a t IH]; intros acc H.
  - simpl. now rewrite app_nil_r.
  - simpl. rewrite (proj2 (Z.eqb_neq a 96) (H a (or_introl eq_refl))).
    rewrite IH by (intros c Hc; apply H; now right). now rewrite <- app_assoc.
Qed.

Lemma strip_bold_nil f : strip_bold f [] = [].
Proof. destruct f; reflexivity. Qed.

Lemma strip_code_nil f : strip_code f [] = [].
Proof. destruct f; reflexivity. Qed.

Lemma strip_bold_open f c r :
  strip_bold (S f) (42 :: 42 :: c :: r) =
  if is_lt c then 42 :: strip_bold f (42 :: c :: r)
  else match bold_close [c] r with
       | Some (inner, rest) => inner ++ strip_bold f rest
       | None => 42 :: strip_bold f (42 :: c :: r)
       end.
Proof. reflexivity. Qed.

Lemma strip_code_open f t :
  strip_code (S f) (96 :: t) =
  match code_close [] t with
  | Some (inner, rest) => if is_empty inner then 96 :: strip_code f t else inner ++ strip_code f rest
  | None => 96 :: strip_code f t
  end.
Proof. reflexivity. Qed.

(** X1 ([splitMarkdownRow]): a row written, up to surrounding
    whitespace, as a pipe, pipe-free cells separated by pipes and a closing
    pipe gives its cells in order, each trimmed and stripped of inline
    markup. *)
Theorem X1_splitMarkdownRow_cells : forall line cs,
  cs <> [] -> (forall c, In c cs -> ~ In 124 c) ->
  trim line = 124 :: join 124 cs ++ [124] ->
  splitMarkdownRow line = map (fun cell => stripInlineMarkdown (trim cell)) cs.
Proof.
  intros line cs Hne Hc Ht. unfold splitMarkdownRow. rewrite Ht. cbv zeta.
  change (starts_pipe (124 :: join 124 cs ++ [124])) with true. cbn [tl].
  assert (He : ends_pipe (join 124 cs ++ [124]) = true).
  { unfold ends_pipe. now rewrite rev_app_distr. }
  rewrite He, removelast_last, split_join; auto.
Qed.

Lemma X1_witness :
  splitMarkdownRow (u " | a | **b** |") =
  map (fun cell => stripInlineMarkdown (trim cell)) [u " a "; u " **b** "].
Proof.
  apply X1_splitMarkdownRow_cells.
  - discriminate.
  - intros c Hc. simpl in Hc. destruct Hc as [<- | [<- | []]]; simpl; intuition lia.
  - vm_compute. reflexivity.
Defined.

(** X2 (the table body loop): after a header line and a separator line,
    the table takes as body rows exactly the longest run of following lines
    that, trimmed, start with a pipe and are not separator lines; rendering
    resumes with the first line that is not such a row. *)
Theorem X2_table_body_rows : forall h sep body,
  table_start (h :: sep :: body) = true ->
  exists pre rest,
    body = pre ++ rest /\ forallb row_line pre = true /\
    match rest with [] => True | l :: _ => row_line l = false end /\
    seg_lines (h :: sep :: body) =
      Table (splitMarkdownRow h) (map splitMarkdownRow pre) :: seg_lines rest.
Proof.
  intros h sep body Hts.
  destruct (take_rows_spec body) as (pre & rest & E & Hf & Hl & Ht).
  exists pre, rest. split; [exact E|]. split; [exact Hf|]. split; [exact Hl|].
  unfold seg_lines.
  change (List.length (h :: sep :: body)) with (S (List.length (sep :: body))).
  rewrite seg_loop_cons, Hts, Ht. cbv beta iota.
  f_equal. apply seg_loop_fuel; [|lia].
  rewrite E. simpl. rewrite length_app. lia.
Qed.

Lemma X2_witness :
  table_start [u "|a|b|"; u "|-|-|"; u "|1|2|"; u "text"] = true /\
  exists pre rest,
    [u "|1|2|"; u "text"] = pre ++ rest /\ forallb row_line pre = true /\
    match rest with [] => True | l :: _ => row_line l = false end /\
    seg_lines [u "|a|b|"; u "|-|-|"; u "|1|2|"; u "text"] =
      Table (splitMarkdownRow (u "|a|b|")) (map splitMarkdownRow pre) :: seg_lines rest.
Proof.
  split; [reflexivity|]. apply X2_table_body_rows. reflexivity.
Defined.

(** X3 ([stripInlineMarkdown]): a text without [*] and backticks is left
    unchanged; for such a non-empty text [s], [`s`] gives [s], and so does
    [**s**] when [s] has no line terminator. *)
Theorem X3_strip_inline_markup : forall s,
  (forall c, In c s -> c <> 42 /\ c <> 96) ->
  stripInlineMarkdown s = s /\
  (s <> [] -> (forall c, In c s -> is_lt c = false) ->
   stripInlineMarkdown ([42; 42] ++ s ++ [42; 42]) = s) /\
  (s <> [] -> stripInlineMarkdown ([96] ++ s ++ [96]) = s).
Proof.
  intros s H. split; [now apply strip_id|]. split.
  - intros Hne Hlt. destruct s as [|c r]; [contradiction|].
    assert (E1 : strip_bold (List.length ([42; 42] ++ (c :: r) ++ [42; 42]))
                   ([42; 42] ++ (c :: r) ++ [42; 42]) = c :: r).
    { change ([42; 42] ++ (c :: r) ++ [42; 42]) with (42 :: 42 :: c :: (r ++ [42; 42])).
      change (List.length (42 :: 42 :: c :: (r ++ [42; 42])))
        with (S (S (S (List.length (r ++ [42; 42]))))).
      rewrite strip_bold_open, (Hlt c (or_introl eq_refl)), bold_close_end.
      2:{ intros x Hx. split; [apply (H x (or_intror Hx)) | apply (Hlt x (or_intror Hx))]. }
      rewrite strip_bold_nil. apply app_nil_r. }
    unfold stripInlineMarkdown. cbv zeta. rewrite E1.
    apply strip_code_id. intros x Hx. apply (H x Hx).
  - intro Hne. unfold stripInlineMarkdown.
    rewrite strip_bold_id.
    2:{ intros x Hx. simpl in Hx. destruct Hx as [<- | Hx]; [lia|].
        apply in_app_or in Hx. destruct Hx as [Hx | [<- | []]]; [apply (H x Hx) | lia]. }
    change ([96] ++ s ++ [96]) with (96 :: (s ++ [96])).
    change (List.length (96 :: (s ++ [96]))) with (S (List.length (s ++ [96]))).
    rewrite strip_code_open, code_close_end by (intros x Hx; apply (H x Hx)).
    simpl app. rewrite (is_empty_false s Hne), strip_code_nil. apply app_nil_r.
Qed.

Lemma X3_witness :
  stripInlineMarkdown (u "bold") = u "bold" /\
  stripInlineMarkdown (u "**bold**") = u "bold" /\
  stripInlineMarkdown (u "`bold`") = u "bold".
Proof.
  assert (H : forall c, In c (u "bold") -> c <> 42 /\ c <> 96).
  { intros c Hc. simpl in Hc. intuition lia. }
  destruct (X3_strip_inline_markup (u "bold") H) as [A [B C]].
  split; [exact A|]. split.
  - apply B; [discriminate|]. intros c Hc. simpl in Hc.
    destruct Hc as [<- | [<- | [<- | [<- | []]]]]; reflexivity.
  - apply C. discriminate.
Defined.

(** ** Header and settings panel *)

Lemma split_on_single d r w : split_on d r = [w] -> r = w.
Proof.
  revert w; induction r as [|c r IH]; intros w H.
  - simpl in H. now inversion H.
  - simpl in H. destruct (c =? d).
    + inversion H as [[H1 H2]]. exfalso. now apply (split_on_nonempty d r).
    + destruct (split_on d r) as [|w' ws] eqn:E; [now apply split_on_nonempty in E|].
      inversion H; subst. now rewrite (IH w').
Qed.

Lemma last_cons_ne {A} (x : A) l dflt : l <> [] -> last (x :: l) dflt = last l dflt.
Proof. destruct l; [contradiction | reflexivity]. Qed.

(** The last piece of [s.split(d)]: what follows the last [d]. *)
Lemma split_last d s :
  exists pre, s = pre ++ last (split_on d s) [] /\ ~ In d (last (split_on d s) []) /\
              (pre = [] \/ exists p, pre = p ++ [d]).
Proof.
  induction s as [|c r IH].
  - exists []. simpl. auto.
  - destruct IH as (pre & E & Hn & Hp). simpl split_on.
    destruct (c =? d) eqn:Ec.
    + apply Z.eqb_eq in Ec. subst c.
      rewrite last_cons_ne by apply split_on_nonempty.
      exists (d :: pre). split; [rewrite E at 1; reflexivity|]. split; [exact Hn|].
      right. destruct Hp as [-> | [p ->]]; [now exists [] | now exists (d :: p)].
    + apply Z.eqb_neq in Ec.
      destruct (split_on d r) as [|w ws] eqn:Es; [now apply split_on_nonempty in Es|].
      destruct ws as [|w' ws'].
      * apply split_on_single in Es. subst w. simpl in *.
        exists []. split; [reflexivity|]. split; [|now left].
        intros [H | H]; [congruence | contradiction].
      * change (last ((c :: w) :: w' :: ws') []) with (last (w' :: ws') []).
        change (last (w :: w' :: ws') []) with (last (w' :: ws') []) in E, Hn.
        exists (c :: pre). split; [rewrite E at 1; reflexivity|]. split; [exact Hn|].
        destruct Hp as [-> | [p ->]].
        -- exfalso. simpl in E. rewrite split_on_nod in Es by (rewrite E; exact Hn).
           discriminate.
        -- right. now exists (c :: p).
Qed.

Lemma ltrim_idem s : ltrim (ltrim s) = ltrim s.
Proof.
  induction s as [|c r IH]; [reflexivity|].
  simpl. destruct (is_ws c) eqn:E; [exact IH|]. simpl. now rewrite E.
Qed.

Lemma ltrim_suffix s : exists p, s = p ++ ltrim s.
Proof.
  induction s as [|c r IH]; [now exists []|].
  simpl. destruct (is_ws c).
  - destruct IH as [p E]. exists (c :: p). simpl. now rewrite <- E.
  - now exists [].
Qed.

Lemma ltrim_head s c t : ltrim s = c :: t -> is_ws c = false.
Proof.
  induction s as [|a r IH]; simpl; [discriminate|].
  destruct (is_ws a) eqn:E; [exact IH|]. intro H. now inversion H; subst.
Qed.

Lemma ltrim_fix c t : is_ws c = false -> ltrim (c :: t) = c :: t.
Proof. intro H. simpl. now rewrite H. Qed.

Lemma ltrim_trim v : ltrim (trim v) = trim v.
Proof.
  destruct (ltrim_suffix (rev (ltrim v))) as [p Ep].
  assert (Ea : ltrim v = trim v ++ rev p).
  { unfold trim. rewrite <- rev_app_distr, <- Ep, rev_involutive. reflexivity. }
  destruct (trim v) as [|c t] eqn:Et; [reflexivity|].
  apply ltrim_fix. apply (ltrim_head v c (t ++ rev p)). rewrite Ea. reflexivity.
Qed.

(** [trim] is idempotent. *)
Lemma trim_idem v : trim (trim v) = trim v.
Proof.
  unfold trim at 1. rewrite ltrim_trim. unfold trim at 1.
  rewrite rev_involutive, ltrim_idem. reflexivity.
Qed.

Lemma update_settings_get pf inp settings :
  let s' := updateSettingsFromInputs pf inp settings in
  obj_get (u "apiBaseUrl") s' = Some (JStr (or_default (in_apiBaseUrl inp) (u "apiBaseUrl"))) /\
  obj_get (u "modelId") s' = Some (JStr (or_default (in_modelId inp) (u "modelId"))) /\
  obj_get (u "systemPrompt") s' =
    Some (JStr (or_default (in_systemPrompt inp) (u "systemPrompt"))) /\
  obj_get (u "temperature") s' =
    Some (JNum (fst (clamp_temp (pf (in_temperature inp))))
               (snd (clamp_temp (pf (in_temperature inp))))) /\
  obj_get (u "maxTokens") s' = Some (maxTokens_of (in_maxTokens inp)) /\
  (forall k, ~ In k settings_keys -> obj_get k s' = obj_get k settings).
Proof.
  intro s'. unfold s', updateSettingsFromInputs. cbv zeta.
  split; [|split; [|split; [|split; [|split]]]].
  - rewrite !obj_get_set_other by discriminate. apply obj_get_set_same.
  - rewrite !obj_get_set_other by discriminate. apply obj_get_set_same.
  - rewrite !obj_get_set_other by discriminate. apply obj_get_set_same.
  - rewrite obj_get_set_other by discriminate. apply obj_get_set_same.
  - apply obj_get_set_same.
  - intros k Hk. unfold settings_keys in Hk. simpl In in Hk.
    rewrite !obj_get_set_other by (intro E; apply Hk; tauto). reflexivity.
Qed.

Lemma or_default_ne v k : default_str k <> [] -> or_default v k <> [].
Proof.
  intro H. unfold or_default. destruct (trim v); [exact H | discriminate].
Qed.








Lemma or_default_spec v k :
  default_str k <> [] -> trim (default_str k) = default_str k ->
  or_default v k <> [] /\ trim (or_default v k) = or_default v k /\
  (trim v <> [] -> or_default v k = trim v) /\ (trim v = [] -> or_default v k = default_str k).
Proof.
  intros Hd Ht. unfold or_default. destruct (trim v) as [|c r] eqn:E; simpl is_empty; cbv iota.
  - repeat split; auto. intro H; contradiction.
  - split; [discriminate|]. split; [rewrite <- E; apply trim_idem|].
    split; [reflexivity | discriminate].
Qed.



(** X4 ([getModelDisplayName]): for a non-empty string [modelId] the
    header shows what follows its last [/] (all of it without a [/]), or
    the whole id when nothing follows the last [/]. *)
Theorem X4_model_display_name : forall settings raw,
  obj_get (u "modelId") settings = Some (JStr raw) -> raw <> [] ->
  exists pre post,
    raw = pre ++ post /\ ~ In 47 post /\ (pre = [] \/ exists p, pre = p ++ [47]) /\
    getModelDisplayName settings = Normal (if is_empty post then raw else post).
Proof.
  intros settings raw Hm Hne.
  destruct (split_last 47 raw) as (pre & E & Hn & Hp).
  exists pre, (last (split_on 47 raw) []). split; [exact E|]. split; [exact Hn|].
  split; [exact Hp|].
  unfold getModelDisplayName. rewrite Hm. cbn [truthy].
  rewrite (is_empty_false raw Hne). reflexivity.
Qed.

Lemma X4_witness :
  exists pre post,
    u "mistralai/ministral-3-3b" = pre ++ post /\ ~ In 47 post /\
    (pre = [] \/ exists p, pre = p ++ [47]) /\
    getModelDisplayName [(u "modelId", JStr (u "mistralai/ministral-3-3b"))] =
      Normal (if is_empty post then u "mistralai/ministral-3-3b" else post).
Proof.
  apply X4_model_display_name; [reflexivity | discriminate].
Defined.

(** X5 ([getModelDisplayName]): a missing or falsy [modelId] shows
    ["未設定"], a truthy [modelId] that is not a string makes it throw, and
    after [updateSettingsFromInputs] it always returns a non-empty name. *)
Theorem X5_model_display_fallbacks : forall settings,
  (truthy (obj_get (u "modelId") settings) = false ->
   getModelDisplayName settings = Normal unset_label) /\
  (truthy (obj_get (u "modelId") settings) = true ->
   (forall s, obj_get (u "modelId") settings <> Some (JStr s)) ->
   getModelDisplayName settings = Throw (u "TypeError")) /\
  (forall pf inp, exists name, name <> [] /\
     getModelDisplayName (updateSettingsFromInputs pf inp settings) = Normal name).
Proof.
  intro settings. split; [|split].
  - intro H. unfold getModelDisplayName. now rewrite H.
  - intros H Hs. unfold getModelDisplayName. rewrite H. cbn [negb].
    destruct (obj_get (u "modelId") settings) as [[| | | s | |]|]; try reflexivity.
    exfalso. exact (Hs s eq_refl).
  - intros pf inp. destruct (update_settings_get pf inp settings) as (_ & Hm & _).
    assert (Hne : or_default (in_modelId inp) (u "modelId") <> [])
      by (apply or_default_ne; vm_compute; discriminate).
    unfold getModelDisplayName. rewrite Hm. cbn [truthy].
    rewrite (is_empty_false _ Hne). cbv zeta. cbn [negb].
    eexists. split; [|reflexivity].
    destruct (is_empty (last (split_on 47 (or_default (in_modelId inp) (u "modelId"))) []))
      eqn:E; [exact Hne|].
    intro H. rewrite H in E. discriminate.
Qed.

Lemma X5_witness :
  getModelDisplayName [] = Normal unset_label /\
  getModelDisplayName [(u "modelId", JNum 5 0)] = Throw (u "TypeError").
Proof.
  split.
  - apply (proj1 (X5_model_display_fallbacks [])). reflexivity.
  - apply (proj1 (proj2 (X5_model_display_fallbacks [(u "modelId", JNum 5 0)]))).
    + reflexivity.
    + intros s H. discriminate.
Defined.

(** X6 ([buildApiUrl]): a base URL with or without one trailing [/]
    gives the same URL; of several trailing [/] only one is removed; a
    base URL that is not a string makes it throw; after
    [updateSettingsFromInputs] it never throws. *)
Theorem X6_buildApiUrl : forall settings path,
  (forall base, ends_with 47 base = false ->
     buildApiUrl (obj_set (u "apiBaseUrl") (JStr base) settings) path = Normal (base ++ path) /\
     buildApiUrl (obj_set (u "apiBaseUrl") (JStr (base ++ [47])) settings) path =
       Normal (base ++ path)) /\
  (forall base, buildApiUrl (obj_set (u "apiBaseUrl") (JStr (base ++ [47; 47])) settings) path =
     Normal (base ++ [47] ++ path)) /\
  ((forall s, obj_get (u "apiBaseUrl") settings <> Some (JStr s)) ->
   buildApiUrl settings path = Throw (u "TypeError")) /\
  (forall pf inp, exists url, buildApiUrl (updateSettingsFromInputs pf inp settings) path = Normal url).
Proof.
  intros settings path. split; [|split; [|split]].
  - intros base Hb. unfold buildApiUrl. rewrite !obj_get_set_same.
    unfold strip_trailing_slash. rewrite Hb. split; [reflexivity|].
    assert (He : ends_with 47 (base ++ [47]) = true)
      by (unfold ends_with; now rewrite rev_app_distr).
    now rewrite He, removelast_last.
  - intro base. unfold buildApiUrl. rewrite obj_get_set_same. unfold strip_trailing_slash.
    assert (He : ends_with 47 (base ++ [47; 47]) = true)
      by (unfold ends_with; now rewrite rev_app_distr).
    rewrite He, removelast_app by discriminate. simpl removelast.
    now rewrite <- app_assoc.
  - intro Hs. unfold buildApiUrl.
    destruct (obj_get (u "apiBaseUrl") settings) as [[| | | s | |]|]; try reflexivity.
    exfalso. exact (Hs s eq_refl).
  - intros pf inp. destruct (update_settings_get pf inp settings) as (Ha & _).
    unfold buildApiUrl. rewrite Ha. eexists. reflexivity.
Qed.

Lemma X6_witness :
  buildApiUrl (obj_set (u "apiBaseUrl") (JStr (u "http://h/v1/")) []) (u "/models") =
    Normal (u "http://h/v1/models") /\
  buildApiUrl [(u "apiBaseUrl", JNull)] (u "/models") = Throw (u "TypeError").
Proof.
  split.
  - apply (proj2 (proj1 (X6_buildApiUrl [] (u "/models")) (u "http://h/v1") eq_refl)).
  - apply (proj1 (proj2 (proj2 (X6_buildApiUrl [(u "apiBaseUrl", JNull)] (u "/models"))))).
    intros s H. discriminate.
Defined.

(** X7 ([updateSettingsFromInputs]): the base URL, the model id and the
    system prompt become the trimmed input, or the default when that is
    empty; each is thus a non-empty string without surrounding whitespace.
    Properties other than the five settings keep their values. *)
Theorem X7_settings_text_fields : forall pf inp settings,
  (forall k v, In (k, v) [(u "apiBaseUrl", in_apiBaseUrl inp); (u "modelId", in_modelId inp);
                          (u "systemPrompt", in_systemPrompt inp)] ->
     exists t, obj_get k (updateSettingsFromInputs pf inp settings) = Some (JStr t) /\
               t <> [] /\ trim t = t /\
               (trim v <> [] -> t = trim v) /\ (trim v = [] -> t = default_str k)) /\
  (forall k, ~ In k settings_keys ->
     obj_get k (updateSettingsFromInputs pf inp settings) = obj_get k settings).
Proof.
  intros pf inp settings.
  destruct (update_settings_get pf inp settings) as (Ha & Hm & Hs & _ & _ & Hk).
  split; [|exact Hk].
  intros k v Hin. simpl in Hin.
  destruct Hin as [Hin | [Hin | [Hin | []]]]; inversion Hin; subst k v;
    eexists; (split; [eassumption|]);
    apply or_default_spec; vm_compute; first [discriminate | reflexivity].
Qed.

Lemma X7_witness :
  exists t,
    obj_get (u "apiBaseUrl")
      (updateSettingsFromInputs (fun _ => NaN) (mkInputs (u " http://h/v1 ") [] [] [] [])
         [(u "theme", JStr (u "dark"))]) = Some (JStr t) /\ t = u "http://h/v1".
Proof.
  destruct (proj1 (X7_settings_text_fields (fun _ => NaN)
                     (mkInputs (u " http://h/v1 ") [] [] [] []) [(u "theme", JStr (u "dark"))])
                  (u "apiBaseUrl") (u " http://h/v1 ") (or_introl eq_refl))
    as (t & Ht & _ & _ & Hv & _).
  exists t. split; [exact Ht|]. rewrite Hv; [reflexivity | vm_compute; discriminate].
Defined.





(** ** Sessions, sidebar and selection *)

Lemma findIndex_none i ss : (forall s, In s ss -> id s <> i) -> findIndex i ss = None.
Proof.
  induction ss as [|s r IH]; intro H; [reflexivity|].
  simpl. rewrite (jsstr_eqb_neq _ _ (H s (or_introl eq_refl))).
  rewrite IH; [reflexivity|]. intros x Hx. apply H. now right.
Qed.

Lemma findIndex_some i ss n :
  findIndex i ss = Some n -> exists s, id s = i /\ Permutation ss (s :: remove_at n ss).
Proof.
  revert n; induction ss as [|s r IH]; intros n H; [discriminate|].
  simpl in H. destruct (jsstr_eqb (id s) i) eqn:E.
  - inversion H; subst. apply jsstr_eqb_eq in E. exists s. split; [exact E | reflexivity].
  - destruct (findIndex i r) as [m|] eqn:Hm; [|discriminate].
    inversion H; subst. destruct (IH m eq_refl) as [x [Hx Hp]].
    exists x. split; [exact Hx|]. simpl.
    rewrite Hp at 1. apply perm_swap.
Qed.

Lemma findIndex_gone i ss n :
  findIndex i ss = Some n -> NoDup (map id ss) -> ~ In i (map id (remove_at n ss)).
Proof.
  revert n; induction ss as [|s r IH]; intros n H Hd; [discriminate|].
  simpl in H. inversion Hd as [|? ? Hn Hd']; subst.
  destruct (jsstr_eqb (id s) i) eqn:E.
  - inversion H; subst. apply jsstr_eqb_eq in E. subst i. exact Hn.
  - destruct (findIndex i r) as [m|] eqn:Hm; [|discriminate].
    inversion H; subst. simpl. intros [E' | Hin].
    + rewrite E' in E. now rewrite jsstr_eqb_refl in E.
    + exact (IH m eq_refl Hd' Hin).
Qed.

Lemma desc_trans : forall a b c, desc a b -> desc b c -> desc a c.
Proof. intros a b c H1 H2. unfold desc in *. lia. Qed.

(** The head of the order of the sidebar is a most recently updated
    session. *)
Lemma sort_head_max l s0 r :
  sort_by_updated l = s0 :: r -> forall s, In s l -> updatedAt s <= updatedAt s0.
Proof.
  intros E s Hs.
  apply (Permutation_in _ (Permutation_sym (sort_by_updated_perm l))) in Hs.
  rewrite E in Hs. destruct Hs as [<- | Hs]; [lia|].
  pose proof (Sorted_StronglySorted desc_trans (sort_by_updated_sorted l)) as HS.
  rewrite E in HS. inversion HS as [|? ? _ Hf]; subst.
  rewrite Forall_forall in Hf. exact (Hf s Hs).
Qed.

Lemma insert_desc_top x l :
  (forall y, In y l -> updatedAt y <= updatedAt x) -> insert_desc x l = x :: l.
Proof.
  destruct l as [|y l]; intro H; [reflexivity|].
  simpl. now rewrite (proj2 (Z.leb_le _ _) (H y (or_introl eq_refl))).
Qed.

Lemma filter_none {A} (p : A -> bool) l : (forall y, In y l -> p y = false) -> filter p l = [].
Proof.
  induction l as [|a l IH]; intro H; [reflexivity|].
  simpl. rewrite (H a (or_introl eq_refl)). apply IH. intros y Hy. apply H. now right.
Qed.

Lemma filter_unique_id c l :
  NoDup (map id l) -> In c (map id l) ->
  exists s, filter (fun s => jsstr_eqb c (id s)) l = [s] /\ id s = c.
Proof.
  induction l as [|s r IH]; intros Hd Hc; [destruct Hc|].
  inversion Hd as [|? ? Hn Hd']; subst. simpl.
  destruct (jsstr_eqb c (id s)) eqn:E.
  - apply jsstr_eqb_eq in E. subst c. exists s. split; [|reflexivity].
    f_equal. apply filter_none. intros y Hy.
    apply jsstr_eqb_neq. intro E. apply Hn. rewrite E. now apply in_map.
  - destruct Hc as [Hc | Hc].
    + rewrite Hc, jsstr_eqb_refl in E. discriminate.
    + exact (IH Hd' Hc).
Qed.

(** X10 ([deleteSession]): deleting an id that no session has changes
    nothing. *)
Theorem X10_deleteSession_unknown : forall i now rnd st,
  (forall s, In s (sessions st) -> id s <> i) -> deleteSession i now rnd st = st.
Proof.
  intros i now rnd st H. unfold deleteSession. now rewrite findIndex_none.
Qed.

Lemma X10_witness : deleteSession (u "session_9_z") 5 (u "b") c1_store = c1_store.
Proof.
  apply X10_deleteSession_unknown. intros s Hs. simpl in Hs.
  destruct Hs as [<- | []]. discriminate.
Defined.

(** X11 ([deleteSession]): when other sessions remain, deleting an id
    removes one session with that id and keeps all the others (with
    distinct ids the id is gone); deleting a session that is not the
    current one keeps the selection and the order, deleting the current one
    selects a most recently updated remaining session. *)
Theorem X11_deleteSession_found : forall i now rnd st n,
  findIndex i (sessions st) = Some n -> remove_at n (sessions st) <> [] ->
  (exists s, id s = i /\ Permutation (sessions st) (s :: sessions (deleteSession i now rnd st))) /\
  (NoDup (map id (sessions st)) -> ~ In i (map id (sessions (deleteSession i now rnd st)))) /\
  (currentSessionId st <> Some i ->
   deleteSession i now rnd st = set_sessions st (remove_at n (sessions st))) /\
  (currentSessionId st = Some i ->
   exists s0, currentSessionId (deleteSession i now rnd st) = Some (id s0) /\
     In s0 (sessions (deleteSession i now rnd st)) /\
     forall s, In s (sessions (deleteSession i now rnd st)) -> updatedAt s <= updatedAt s0).
Proof.
  intros i now rnd st n Hf Hne.
  destruct (findIndex_some i (sessions st) n Hf) as [x [Hx Hp]].
  pose proof (findIndex_gone i (sessions st) n Hf) as Hg.
  unfold deleteSession. rewrite Hf. cbn [sessions set_sessions currentSessionId].
  destruct (remove_at n (sessions st)) as [|y ys] eqn:ER; [contradiction|].
  destruct (opt_eqb (currentSessionId st) i) eqn:Eo.
  - apply opt_eqb_true in Eo.
    destruct (sort_nonempty (y :: ys) ltac:(discriminate)) as (s0 & r & Es & _).
    rewrite Es. cbn [sessions currentSessionId set_current set_sessions].
    assert (Hq : Permutation (s0 :: r) (y :: ys)) by (rewrite <- Es; apply sort_by_updated_perm).
    split; [|split; [|split]].
    + exists x. split; [exact Hx|]. rewrite Hp. apply perm_skip. now symmetry.
    + intros Hd Hin. apply (Hg Hd).
      apply (Permutation_in _ (Permutation_map id Hq)). exact Hin.
    + intro H. contradiction.
    + intros _. exists s0. split; [reflexivity|]. split; [now left|].
      intros s Hs. apply (sort_head_max (y :: ys) s0 r Es).
      exact (Permutation_in _ Hq Hs).
  - split; [|split; [|split]].
    + exists x. split; [exact Hx | exact Hp].
    + exact Hg.
    + intros _. reflexivity.
    + intro H. rewrite H in Eo. simpl in Eo. now rewrite jsstr_eqb_refl in Eo.
Qed.

Lemma X11_witness :
  (exists s, id s = u "session_1_a" /\
     Permutation (sessions c7_store)
       (s :: sessions (deleteSession (u "session_1_a") 5 (u "c") c7_store))) /\
  (NoDup (map id (sessions c7_store)) ->
   ~ In (u "session_1_a") (map id (sessions (deleteSession (u "session_1_a") 5 (u "c") c7_store)))) /\
  (currentSessionId c7_store <> Some (u "session_1_a") ->
   deleteSession (u "session_1_a") 5 (u "c") c7_store =
     set_sessions c7_store (remove_at 1 (sessions c7_store))) /\
  (currentSessionId c7_store = Some (u "session_1_a") ->
   exists s0, currentSessionId (deleteSession (u "session_1_a") 5 (u "c") c7_store) = Some (id s0) /\
     In s0 (sessions (deleteSession (u "session_1_a") 5 (u "c") c7_store)) /\
     forall s, In s (sessions (deleteSession (u "session_1_a") 5 (u "c") c7_store)) ->
       updatedAt s <= updatedAt s0).
Proof.
  apply X11_deleteSession_found; vm_compute; [reflexivity | discriminate].
Defined.

(** X12 ([loadSessions]): when there are sessions to load, exactly they
    are kept, reordered, and a most recently updated one is selected. *)
Theorem X12_loadSessions_most_recent : forall b now rnd st,
  (match b with SAbsent => sessions st | SCorrupt => [] | SParsed ss => ss end) <> [] ->
  Permutation (sessions (loadSessions b now rnd st))
              (match b with SAbsent => sessions st | SCorrupt => [] | SParsed ss => ss end) /\
  exists s0, currentSessionId (loadSessions b now rnd st) = Some (id s0) /\
    In s0 (match b with SAbsent => sessions st | SCorrupt => [] | SParsed ss => ss end) /\
    forall s, In s (match b with SAbsent => sessions st | SCorrupt => [] | SParsed ss => ss end) ->
      updatedAt s <= updatedAt s0.
Proof.
  intros b now rnd st.
  remember (match b with SAbsent => sessions st | SCorrupt => [] | SParsed ss => ss end) as ss.
  intro Hne.
  remember (match b with SAbsent => st | SCorrupt => set_sessions st []
                     | SParsed ss => set_sessions st ss end) as st0.
  assert (Hs : sessions st0 = ss) by (subst; destruct b; reflexivity).
  assert (E : loadSessions b now rnd st =
              match sessions st0 with
              | [] => let (st', s) := createNewSession new_chat_title now rnd st0 in
                      set_current st' (Some (id s))
              | _ => match sort_by_updated (sessions st0) with
                     | s0 :: _ => set_current (set_sessions st0 (sort_by_updated (sessions st0)))
                                              (Some (id s0))
                     | [] => st0
                     end
              end) by (subst; reflexivity).
  rewrite E, Hs. clear E.
  destruct ss as [|x xs]; [contradiction|].
  destruct (sort_nonempty (x :: xs) Hne) as (s0 & r & Es & Hin).
  rewrite Es. cbn [sessions currentSessionId set_current set_sessions].
  split; [rewrite <- Es; apply sort_by_updated_perm|].
  exists s0. split; [reflexivity|]. split; [exact Hin|].
  exact (sort_head_max (x :: xs) s0 r Es).
Qed.

Lemma X12_witness :
  Permutation (sessions (loadSessions (SParsed [c8_session; c8_loaded]) 20 (u "a") init_store))
              [c8_session; c8_loaded] /\
  exists s0, currentSessionId (loadSessions (SParsed [c8_session; c8_loaded]) 20 (u "a") init_store)
               = Some (id s0) /\ In s0 [c8_session; c8_loaded] /\
    forall s, In s [c8_session; c8_loaded] -> updatedAt s <= updatedAt s0.
Proof.
  apply (X12_loadSessions_most_recent (SParsed [c8_session; c8_loaded]) 20 (u "a") init_store).
  discriminate.
Defined.

(** X13 (the "new chat" button): when the clock is not behind the
    sessions, the new chat, empty and titled "新しいチャット", is selected
    and heads the sidebar, above the sessions in their previous order. *)
Theorem X13_newChat_first : forall now rnd st,
  (forall s, In s (sessions st) -> updatedAt s <= now) ->
  exists s0, listByRecency (newChat now rnd st) = s0 :: listByRecency st /\
    currentSessionId (newChat now rnd st) = Some (id s0) /\
    title s0 = new_chat_title /\ messages s0 = [] /\ updatedAt s0 = now.
Proof.
  intros now rnd st H. unfold newChat, createNewSession.
  cbn [listByRecency sessions currentSessionId set_current set_sessions].
  eexists. split; [|split; [reflexivity | split; [reflexivity | split; reflexivity]]].
  unfold listByRecency. cbn [sessions sort_by_updated].
  apply insert_desc_top. intros y Hy. cbn [updatedAt]. apply H.
  exact (Permutation_in _ (sort_by_updated_perm _) Hy).
Qed.

Lemma X13_witness :
  exists s0, listByRecency (newChat 5 (u "b") c1_store) = s0 :: listByRecency c1_store /\
    currentSessionId (newChat 5 (u "b") c1_store) = Some (id s0) /\
    title s0 = new_chat_title /\ messages s0 = [] /\ updatedAt s0 = 5.
Proof.
  apply X13_newChat_first. intros s Hs. simpl in Hs. destruct Hs as [<- | []]. simpl. lia.
Defined.

(** X14 ([renderSidebar]): the sidebar shows every session once, most
    recently updated first, each with a non-empty label; when the current
    id names a session and ids are distinct, exactly one item is active,
    the current session's. *)
Theorem X14_sidebar_items : forall st,
  Permutation (map item_id (renderSidebar st)) (map id (sessions st)) /\
  Sorted desc (listByRecency st) /\ map item_id (renderSidebar st) = map id (listByRecency st) /\
  (forall it, In it (renderSidebar st) -> item_title it <> []) /\
  (cur_ok st -> NoDup (map id (sessions st)) ->
   exists it, filter item_active (renderSidebar st) = [it] /\
              currentSessionId st = Some (item_id it)).
Proof.
  intro st. unfold renderSidebar.
  assert (Hids : map item_id (map (fun s => mkItem (id s) (list_label s)
                                       (opt_eqb (currentSessionId st) (id s))) (listByRecency st))
                 = map id (listByRecency st)) by (rewrite map_map; reflexivity).
  split; [|split; [|split; [|split]]].
  - rewrite Hids. apply Permutation_map. apply sort_by_updated_perm.
  - apply sort_by_updated_sorted.
  - exact Hids.
  - intros it Hit. apply in_map_iff in Hit as [s [<- _]]. cbn [item_title].
    unfold list_label. destruct (is_empty (title s)) eqn:E; [discriminate|].
    destruct (title s); [discriminate | discriminate].
  - intros [c [Hc Hin]] Hd. rewrite Hc.
    apply in_ids_sort in Hin.
    assert (Hd' : NoDup (map id (listByRecency st))).
    { apply (Permutation_NoDup (Permutation_map id (Permutation_sym (sort_by_updated_perm _)))).
      exact Hd. }
    destruct (filter_unique_id c (listByRecency st) Hd' Hin) as [s [Hf Hs]].
    exists (mkItem (id s) (list_label s) (opt_eqb (Some c) (id s))). split.
    + rewrite filter_map_swap. cbn [item_active]. cbn [opt_eqb].
      change (fun x : ChatSession => jsstr_eqb c (id x)) with
             (fun s => jsstr_eqb c (id s)) in Hf.
      rewrite Hf. reflexivity.
    + cbn [item_id]. now rewrite Hs.
Qed.

Lemma find_session_some c ss s : find_session c ss = Some s -> opt_eqb c (id s) = true.
Proof.
  induction ss as [|s0 ss IH]; simpl; [discriminate|].
  destruct (opt_eqb c (id s0)) eqn:E; [intro H; inversion H; now subst | exact IH].
Qed.

(** X15 ([handleSend] and its continuation): sending a non-empty input
    from an idle store with a current session marks the store as sending,
    and meanwhile another send changes nothing; when the request settles,
    sending ends, the selection is unchanged and the current session holds
    its previous messages, then the user message (the trimmed input), then
    one assistant message: the reply, or the diagnostic text when the
    request failed. *)
Theorem X15_send_exchange : forall st s input now r t2,
  isSending st = false -> getCurrentSession st = Some s -> trim input <> [] ->
  exists st1, handleSend input now st = Normal st1 /\ isSending st1 = true /\
    (forall input' now', handleSend input' now' st1 = Normal st1) /\
    isSending (handleSendFinish (id s) r t2 st1) = false /\
    currentSessionId (handleSendFinish (id s) r t2 st1) = currentSessionId st /\
    exists s2, getCurrentSession (handleSendFinish (id s) r t2 st1) = Some s2 /\
      id s2 = id s /\ updatedAt s2 = t2 /\
      messages s2 = messages s ++
        [mkMessage user (trim input) now;
         mkMessage assistant (match r with Normal x => x | Throw _ => send_error_text end) t2].
Proof.
  intros st s input now r t2 Hs Hc Ht.
  rewrite (handleSend_append st s input now Hs Hc Ht).
  eexists. split; [reflexivity|]. split; [reflexivity|]. split; [intros; reflexivity|].
  unfold handleSendFinish, handleSendReply. cbn [isSending currentSessionId sessions].
  split; [reflexivity|]. split; [reflexivity|].
  pose proof Hc as Hc'. unfold getCurrentSession in Hc'.
  assert (Hcur : currentSessionId st = Some (id s))
    by exact (opt_eqb_true _ _ (find_session_some _ _ _ Hc')).
  unfold getCurrentSession. cbn [currentSessionId sessions]. rewrite Hcur in *.
  rewrite find_update_first by reflexivity.
  rewrite find_update_first by reflexivity.
  rewrite Hc'. cbn [option_map]. eexists. split; [reflexivity|].
  cbn [id updatedAt messages]. split; [reflexivity|]. split; [reflexivity|].
  now rewrite <- app_assoc.
Qed.

Lemma X15_witness :
  exists st1, handleSend (u " hi ") 2 c1_store = Normal st1 /\ isSending st1 = true /\
    (forall input' now', handleSend input' now' st1 = Normal st1) /\
    isSending (handleSendFinish (u "session_1_a") (Throw (u "TypeError")) 3 st1) = false /\
    currentSessionId (handleSendFinish (u "session_1_a") (Throw (u "TypeError")) 3 st1) =
      currentSessionId c1_store /\
    exists s2, getCurrentSession (handleSendFinish (u "session_1_a") (Throw (u "TypeError")) 3 st1)
                 = Some s2 /\
      id s2 = u "session_1_a" /\ updatedAt s2 = 3 /\
      messages s2 = [] ++ [mkMessage user (trim (u " hi ")) 2; mkMessage assistant send_error_text 3].
Proof.
  apply (X15_send_exchange c1_store (mkSession (u "session_1_a") new_chat_title [] 1 1)
           (u " hi ") 2 (Throw (u "TypeError")) 3).
  - reflexivity.
  - reflexivity.
  - vm_compute. discriminate.
Defined.

Lemma searchChatNav_eq lower num kw ans st :
  is_empty (lower (trim kw)) = false ->
  searchChatNav lower num kw ans st =
  match searchChat lower kw st with
  | [] => st
  | [s] => set_current st (Some (id s))
  | _ =>
      match ans with
      | None => st
      | Some a =>
          if is_empty a then st
          else match jsnum_int (num a) with
               | Some n =>
                   if (n <? 1) || (Z.of_nat (List.length (searchChat lower kw st)) <? n) then st
                   else match nth_error (searchChat lower kw st) (Z.to_nat (n - 1)) with
                        | Some s => set_current st (Some (id s))
                        | None => st
                        end
               | None => st
               end
      end
  end.
Proof.
  intro H. unfold searchChatNav, searchChat. cbv zeta. rewrite H. reflexivity.
Qed.

Lemma searchChat_empty lower kw st :
  is_empty (lower (trim kw)) = true -> searchChat lower kw st = [] /\
  forall num ans, searchChatNav lower num kw ans st = st.
Proof.
  intro H. unfold searchChat, searchChatNav. cbv zeta. rewrite H. split; reflexivity.
Qed.

Lemma searchChatNav_cases lower num kw ans st :
  searchChatNav lower num kw ans st = st \/
  exists s, In s (searchChat lower kw st) /\
    searchChatNav lower num kw ans st = set_current st (Some (id s)).
Proof.
  destruct (is_empty (lower (trim kw))) eqn:Eq.
  - left. exact (proj2 (searchChat_empty lower kw st Eq) num ans).
  - rewrite searchChatNav_eq by exact Eq.
    destruct (searchChat lower kw st) as [|s [|s' r]]; [now left | right; exists s; split; [now left | reflexivity]|].
    destruct ans as [a|]; [|now left].
    destruct (is_empty a); [now left|].
    destruct (jsnum_int (num a)) as [n|]; [|now left].
    destruct ((n <? 1) || (Z.of_nat (List.length (s :: s' :: r)) <? n)); [now left|].
    destruct (nth_error (s :: s' :: r) (Z.to_nat (n - 1))) as [x|] eqn:En; [|now left].
    right. exists x. split; [exact (nth_error_In _ _ En) | reflexivity].
Qed.

Lemma in_searchChat lower kw st s : In s (searchChat lower kw st) -> In s (sessions st).
Proof.
  unfold searchChat. cbv zeta. destruct (is_empty (lower (trim kw))); [intros []|].
  intro H. now apply filter_In in H as [H _].
Qed.

(** X16 ([searchChat] with its dialogs): a search changes at most the
    selection, and only to a session that matches the keyword; so a
    current id that names a session still does afterwards. *)
Theorem X16_search_selects_match : forall lower num kw ans st,
  sessions (searchChatNav lower num kw ans st) = sessions st /\
  isSending (searchChatNav lower num kw ans st) = isSending st /\
  (currentSessionId (searchChatNav lower num kw ans st) = currentSessionId st \/
   exists s, In s (searchChat lower kw st) /\
     currentSessionId (searchChatNav lower num kw ans st) = Some (id s)) /\
  (cur_ok st -> cur_ok (searchChatNav lower num kw ans st)).
Proof.
  intros lower num kw ans st.
  destruct (searchChatNav_cases lower num kw ans st) as [E | [s [Hin E]]]; rewrite E.
  - split; [reflexivity|]. split; [reflexivity|]. split; [now left | exact (fun H => H)].
  - split; [reflexivity|]. split; [reflexivity|]. split; [right; now exists s|].
    intros _. exists (id s). split; [reflexivity|]. cbn [sessions set_current].
    apply in_map. exact (in_searchChat _ _ _ _ Hin).
Qed.

Lemma list_entries_nth j l k :
  nth_error (list_entries j l) k =
  option_map (fun s => num_to_string (j + Z.of_nat k) ++ u ": " ++ list_label s) (nth_error l k).
Proof.
  revert j k; induction l as [|s r IH]; intros j k; [now destruct k|].
  destruct k as [|k]; simpl.
  - now rewrite Z.add_0_r.
  - rewrite IH. cbn [option_map]. destruct (nth_error r k); [|reflexivity].
    cbn [option_map]. do 3 f_equal. lia.
Qed.

(** X17 ([searchChat] with its dialogs): a single match is selected
    directly; with several matches line [k] of the list reads [k: label],
    an answer that [Number] reads as [k] selects the [k]-th match, and
    cancelling or a number outside 1..count changes nothing. *)
Theorem X17_search_numbering : forall lower num kw st,
  (forall s ans, searchChat lower kw st = [s] ->
     searchChatNav lower num kw ans st = set_current st (Some (id s))) /\
  (forall a k s, (2 <= List.length (searchChat lower kw st))%nat ->
     nth_error (searchChat lower kw st) k = Some s ->
     num a = Fin (Z.of_nat k + 1) 0 -> a <> [] ->
     nth_error (list_entries 1 (searchChat lower kw st)) k =
       Some (num_to_string (Z.of_nat k + 1) ++ u ": " ++ list_label s) /\
     searchChatNav lower num kw (Some a) st = set_current st (Some (id s))) /\
  (forall a n, (2 <= List.length (searchChat lower kw st))%nat ->
     jsnum_int (num a) = Some n ->
     (n < 1 \/ Z.of_nat (List.length (searchChat lower kw st)) < n) ->
     searchChatNav lower num kw (Some a) st = st) /\
  ((2 <= List.length (searchChat lower kw st))%nat -> searchChatNav lower num kw None st = st).
Proof.
  intros lower num kw st.
  destruct (is_empty (lower (trim kw))) eqn:Eq.
  { destruct (searchChat_empty lower kw st Eq) as [E _]. rewrite E.
    split; [discriminate|]. split; [intros; simpl in *; lia|].
    split; intros; simpl in *; lia. }
  split; [|split; [|split]].
  - intros s ans H. rewrite searchChatNav_eq, H by exact Eq. reflexivity.
  - intros a k s Hl Hk Hn Ha. split.
    + rewrite list_entries_nth, Hk. cbn [option_map]. now rewrite Z.add_comm.
    + rewrite searchChatNav_eq by exact Eq.
      assert (Hlt : (k < List.length (searchChat lower kw st))%nat)
        by (apply nth_error_Some; rewrite Hk; discriminate).
      destruct (searchChat lower kw st) as [|s1 [|s2 r]] eqn:EM; simpl in Hl; try lia.
      rewrite (is_empty_false a Ha), Hn. unfold jsnum_int. cbn [Z.leb Z.compare].
      change (10 ^ 0) with 1. rewrite Z.mul_1_r.
      replace ((Z.of_nat k + 1 <? 1) || (Z.of_nat (List.length (s1 :: s2 :: r)) <? Z.of_nat k + 1))
        with false by (symmetry; apply orb_false_iff; split; apply Z.ltb_ge; lia).
      replace (Z.to_nat (Z.of_nat k + 1 - 1)) with k by lia.
      rewrite Hk. reflexivity.
  - intros a n Hl Hn Hout. rewrite searchChatNav_eq by exact Eq.
    destruct (searchChat lower kw st) as [|s1 [|s2 r]] eqn:EM; simpl in Hl; try lia.
    destruct (is_empty a); [reflexivity|]. rewrite Hn.
    replace ((n <? 1) || (Z.of_nat (List.length (s1 :: s2 :: r)) <? n)) with true
      by (symmetry; apply orb_true_iff; destruct Hout; [left | right]; apply Z.ltb_lt; lia).
    reflexivity.
  - intros Hl. rewrite searchChatNav_eq by exact Eq.
    destruct (searchChat lower kw st) as [|s1 [|s2 r]] eqn:EM; simpl in Hl; try lia.
    reflexivity.
Qed.

Lemma X17_witness :
  nth_error (list_entries 1 (searchChat ascii_lower (u "chat") c7_store)) 1 =
    Some (num_to_string (Z.of_nat 1 + 1) ++ u ": " ++ list_label (mkSession (u "session_1_a") (u "chat one")
      [mkMessage user (u "chat one") 4; mkMessage assistant (u "ok") 4] 1 4)) /\
  searchChatNav ascii_lower (fun _ => Fin 2 0) (u "chat") (Some (u "2")) c7_store =
    set_current c7_store (Some (id (mkSession (u "session_1_a") (u "chat one")
      [mkMessage user (u "chat one") 4; mkMessage assistant (u "ok") 4] 1 4))).
Proof.
  apply (proj1 (proj2 (X17_search_numbering ascii_lower (fun _ => Fin 2 0) (u "chat") c7_store))).
  - vm_compute. lia.
  - vm_compute. reflexivity.
  - reflexivity.
  - discriminate.
Defined.

(** ** Requests to LM Studio *)

Lemma obj_get_app k a b :
  obj_get k (a ++ b) = match obj_get k a with Some v => Some v | None => obj_get k b end.
Proof.
  induction a as [|[k' v] a IH]; [reflexivity|].
  simpl. destruct (jsstr_eqb k' k); [reflexivity | exact IH].
Qed.

Lemma obj_get_opt_prop k k' v :
  obj_get k (opt_prop k' v) = if jsstr_eqb k' k then v else None.
Proof. destruct v; simpl; [|now destruct (jsstr_eqb k' k)]. now destruct (jsstr_eqb k' k). Qed.

(** Closed comparisons of property names, evaluated. *)
Ltac eval_keys :=
  repeat match goal with
         | |- context [jsstr_eqb (u ?a) (u ?b)] =>
             let v := eval vm_compute in (jsstr_eqb (u a) (u b)) in
             change (jsstr_eqb (u a) (u b)) with v
         end; cbv iota.

(** X18 ([sendToLmStudio]'s request body): the messages sent are a
    system message carrying the system prompt, then every message of the
    session in order, each with its role and content. *)
Theorem X18_payload_messages : forall settings session,
  exists sys rest,
    obj_get (u "messages") (chat_payload settings session) = Some (JArr (sys :: rest)) /\
    get_prop (u "role") sys = Some (JStr (u "system")) /\
    get_prop (u "content") sys = obj_get (u "systemPrompt") settings /\
    List.length rest = List.length (messages session) /\
    forall k m, nth_error (messages session) k = Some m ->
      exists x, nth_error rest k = Some x /\
        get_prop (u "role") x = Some (JStr (role_str (role m))) /\
        get_prop (u "content") x = Some (JStr (content m)).
Proof.
  intros settings session. unfold chat_payload.
  rewrite obj_get_app, obj_get_opt_prop. eval_keys.
  cbn [app obj_get]. eval_keys.
  eexists. eexists. split; [reflexivity|].
  split; [reflexivity|].
  split; [cbn [get_prop obj_get]; eval_keys; rewrite obj_get_opt_prop; eval_keys; reflexivity|].
  split; [apply length_map|].
  intros k m Hk. rewrite nth_error_map, Hk. cbn [option_map].
  eexists. split; [reflexivity|]. cbn [get_prop obj_get]. eval_keys.
  split; reflexivity.
Qed.

(** X19 ([sendToLmStudio]'s request body): [max_tokens] is sent exactly
    when [maxTokens] is set and not [null], with its value; [model] and
    [temperature] are sent as set.  With the settings [loadSettings]
    produces, the body has temperature 0.7 and no [max_tokens]. *)
Theorem X19_payload_options : forall settings session,
  obj_get (u "max_tokens") (chat_payload settings session) =
    match obj_get (u "maxTokens") settings with Some JNull => None | v => v end /\
  obj_get (u "temperature") (chat_payload settings session) = obj_get (u "temperature") settings /\
  obj_get (u "model") (chat_payload settings session) = obj_get (u "modelId") settings /\
  (forall b, obj_get (u "max_tokens") (chat_payload (loadSettings b) session) = None /\
             obj_get (u "temperature") (chat_payload (loadSettings b) session) = Some (JNum 7 (-1))).
Proof.
  assert (Hmax : forall settings session,
    obj_get (u "max_tokens") (chat_payload settings session) =
      match obj_get (u "maxTokens") settings with Some JNull => None | v => v end).
  { intros settings session. unfold chat_payload.
    rewrite !obj_get_app, !obj_get_opt_prop. eval_keys. cbn [obj_get]. eval_keys.
    destruct (obj_get (u "maxTokens") settings) as [[| | | | |]|]; cbn [obj_get opt_prop];
      eval_keys; reflexivity. }
  assert (Htemp : forall settings session,
    obj_get (u "temperature") (chat_payload settings session) = obj_get (u "temperature") settings).
  { intros settings session. unfold chat_payload.
    rewrite !obj_get_app, !obj_get_opt_prop. eval_keys. cbn [obj_get]. eval_keys.
    destruct (obj_get (u "temperature") settings); [reflexivity|].
    destruct (obj_get (u "maxTokens") settings) as [[| | | | |]|]; cbn [obj_get opt_prop];
      eval_keys; reflexivity. }
  intros settings session. split; [apply Hmax|]. split; [apply Htemp|]. split.
  - unfold chat_payload. rewrite !obj_get_app, !obj_get_opt_prop. eval_keys.
    cbn [obj_get]. eval_keys.
    destruct (obj_get (u "modelId") settings); [reflexivity|].
    destruct (obj_get (u "maxTokens") settings) as [[| | | | |]|]; cbn [obj_get opt_prop];
      eval_keys; reflexivity.
  - intro b. rewrite Hmax, Htemp. unfold loadSettings. cbv zeta.
    rewrite obj_get_set_same, obj_get_set_other by discriminate.
    rewrite obj_get_set_same. split; reflexivity.
Qed.

(** X20 ([sendToLmStudio]): with a string base URL, a rejected request
    fails with its error, a response that is not OK fails with
    ["HTTP <status>: <body>"], a body that is not JSON or is [null] fails;
    an OK body whose first choice has a message with string content gives
    that content, also when it is empty; an OK body without choices, with
    [choices] null or empty gives the fallback text. *)
Theorem X20_sendToLmStudio_outcomes : forall settings session base,
  obj_get (u "apiBaseUrl") settings = Some (JStr base) ->
  (forall m, sendToLmStudio settings session (Throw m) = Throw m) /\
  (forall st tx j, sendToLmStudio settings session (Normal (mkResponse false st tx j)) =
     Throw (u "HTTP " ++ num_to_string st ++ u ": " ++ tx)) /\
  (forall st tx, sendToLmStudio settings session (Normal (mkResponse true st tx None)) =
     Throw (u "SyntaxError")) /\
  (forall st tx, sendToLmStudio settings session (Normal (mkResponse true st tx (Some JNull))) =
     Throw (u "TypeError")) /\
  (forall st tx o c0 rest mo c,
     obj_get (u "choices") o = Some (JArr (JObj c0 :: rest)) ->
     obj_get (u "message") c0 = Some (JObj mo) -> obj_get (u "content") mo = Some (JStr c) ->
     sendToLmStudio settings session (Normal (mkResponse true st tx (Some (JObj o)))) =
       Normal (JStr c)) /\
  (forall st tx o,
     (obj_get (u "choices") o = None \/ obj_get (u "choices") o = Some JNull \/
      obj_get (u "choices") o = Some (JArr [])) ->
     sendToLmStudio settings session (Normal (mkResponse true st tx (Some (JObj o)))) =
       Normal (JStr no_reply_text)).
Proof.
  intros settings session base Hb.
  assert (Hu : buildApiUrl settings (u "/chat/completions") =
               Normal (strip_trailing_slash base ++ u "/chat/completions"))
    by (unfold buildApiUrl; now rewrite Hb).
  unfold sendToLmStudio. rewrite Hu.
  split; [reflexivity|]. split; [reflexivity|]. split; [reflexivity|]. split; [reflexivity|].
  split.
  - intros st tx o c0 rest mo c H1 H2 H3. cbn [res_ok res_json negb].
    unfold reply_of. cbn [get_prop]. rewrite H1. cbn [opt_chain get_index0 get_prop].
    rewrite H2. cbn [opt_chain get_prop]. now rewrite H3.
  - intros st tx o H. cbn [res_ok res_json negb].
    unfold reply_of. cbn [get_prop].
    destruct H as [H | [H | H]]; rewrite H; reflexivity.
Qed.

Lemma X20_witness :
  sendToLmStudio [(u "apiBaseUrl", JStr (u "http://h/v1"))] c8_session
    (Normal (mkResponse true 200 []
       (Some (JObj [(u "choices", JArr [JObj [(u "message", JObj [(u "content", JStr [])])]])]))))
    = Normal (JStr []) /\
  sendToLmStudio [(u "apiBaseUrl", JStr (u "http://h/v1"))] c8_session
    (Normal (mkResponse false 404 (u "nf") None)) = Throw (u "HTTP 404: nf").
Proof.
  destruct (X20_sendToLmStudio_outcomes [(u "apiBaseUrl", JStr (u "http://h/v1"))] c8_session
              (u "http://h/v1") eq_refl) as (_ & H404 & _ & _ & Hok & _).
  split.
  - eapply Hok; reflexivity.
  - rewrite H404. reflexivity.
Defined.

Lemma flat_map_ids objs ids :
  map (fun p => obj_get (u "id") p) objs = map (fun s => Some (JStr s)) ids ->
  flat_map (fun m => match get_prop (u "id") m with Some (JStr s) => [s] | _ => [] end)
           (map JObj objs) = ids.
Proof.
  revert ids; induction objs as [|p objs IH]; intros [|s ids] H; try discriminate; [reflexivity|].
  simpl in H. inversion H as [[Hp Hr]]. simpl. rewrite Hp. cbn [app]. f_equal. now apply IH.
Qed.

Lemma existsb_null_objs objs :
  existsb (fun m => match m with JNull => true | _ => false end) (map JObj objs) = false.
Proof. induction objs; [reflexivity | exact IHobjs]. Qed.

(** X21 ([ensureModelList]): a non-empty cached list is kept; otherwise,
    with a string base URL, an OK response whose [data] is an array of
    objects with string [id]s gives those ids in order, and every failure
    (a rejected request, a status that is not OK, a body that is not JSON
    or is [null], [data] holding [null], [data] neither an array nor
    missing) gives the empty list, as does a missing [data]. *)
Theorem X21_ensureModelList : forall settings base,
  obj_get (u "apiBaseUrl") settings = Some (JStr base) ->
  (forall x xs res, ensureModelList (x :: xs) settings res = x :: xs) /\
  (forall st tx o objs ids,
     obj_get (u "data") o = Some (JArr (map JObj objs)) ->
     map (fun p => obj_get (u "id") p) objs = map (fun s => Some (JStr s)) ids ->
     ensureModelList [] settings (Normal (mkResponse true st tx (Some (JObj o)))) = ids) /\
  (forall m, ensureModelList [] settings (Throw m) = []) /\
  (forall st tx j, ensureModelList [] settings (Normal (mkResponse false st tx j)) = []) /\
  (forall st tx, ensureModelList [] settings (Normal (mkResponse true st tx None)) = []) /\
  (forall st tx, ensureModelList [] settings (Normal (mkResponse true st tx (Some JNull))) = []) /\
  (forall st tx o xs, obj_get (u "data") o = Some (JArr xs) -> In JNull xs ->
     ensureModelList [] settings (Normal (mkResponse true st tx (Some (JObj o)))) = []) /\
  (forall st tx o v, obj_get (u "data") o = Some v ->
     match v with JArr _ => False | _ => True end ->
     ensureModelList [] settings (Normal (mkResponse true st tx (Some (JObj o)))) = []) /\
  (forall st tx o, obj_get (u "data") o = None ->
     ensureModelList [] settings (Normal (mkResponse true st tx (Some (JObj o)))) = []).
Proof.
  intros settings base Hb.
  assert (Hu : buildApiUrl settings (u "/models") = Normal (strip_trailing_slash base ++ u "/models"))
    by (unfold buildApiUrl; now rewrite Hb).
  split; [reflexivity|].
  unfold ensureModelList. rewrite Hu.
  split; [|split; [reflexivity|split; [reflexivity|split; [reflexivity|split; [reflexivity|]]]]].
  - intros st tx o objs ids Hd Hi. cbn [res_ok res_json negb].
    unfold model_ids. cbn [get_prop]. rewrite Hd, existsb_null_objs.
    now apply flat_map_ids.
  - split; [|split].
    + intros st tx o xs Hd Hn. cbn [res_ok res_json negb].
      unfold model_ids. cbn [get_prop]. rewrite Hd.
      replace (existsb (fun m => match m with JNull => true | _ => false end) xs) with true
        by (symmetry; apply existsb_exists; now exists JNull).
      reflexivity.
    + intros st tx o v Hd Hv. cbn [res_ok res_json negb].
      unfold model_ids. cbn [get_prop]. rewrite Hd.
      destruct v; try reflexivity. contradiction.
    + intros st tx o Hd. cbn [res_ok res_json negb].
      unfold model_ids. cbn [get_prop]. now rewrite Hd.
Qed.

Lemma X21_witness :
  ensureModelList [] [(u "apiBaseUrl", JStr (u "http://h/v1"))]
    (Normal (mkResponse true 200 []
       (Some (JObj [(u "data", JArr [JObj [(u "id", JStr (u "m1"))]; JObj [(u "id", JStr (u "m2"))]])]))))
    = [u "m1"; u "m2"] /\
  ensureModelList [] [(u "apiBaseUrl", JStr (u "http://h/v1"))]
    (Normal (mkResponse true 200 [] (Some (JObj [(u "data", JArr [JNull])])))) = [].
Proof.
  destruct (X21_ensureModelList [(u "apiBaseUrl", JStr (u "http://h/v1"))] (u "http://h/v1") eq_refl)
    as (_ & Hok & _ & _ & _ & _ & Hnull & _).
  split.
  - apply (Hok 200 [] [(u "data", JArr [JObj [(u "id", JStr (u "m1"))]; JObj [(u "id", JStr (u "m2"))]])]
             [[(u "id", JStr (u "m1"))]; [(u "id", JStr (u "m2"))]]); reflexivity.
  - apply (Hnull 200 [] [(u "data", JArr [JNull])] [JNull]); [reflexivity | now left].
Defined.

(** ** Loading settings and the length of stripped text *)

(** X22 ([loadSettings]): the base URL, the model id and the system
    prompt are the defaults when storage holds nothing or something that
    does not parse, and when the stored object lacks that property. *)
Theorem X22_loadSettings_defaults : forall k,
  In k [u "apiBaseUrl"; u "modelId"; u "systemPrompt"] ->
  obj_get k (loadSettings SetAbsent) = obj_get k DEFAULT_SETTINGS /\
  obj_get k (loadSettings SetCorrupt) = obj_get k DEFAULT_SETTINGS /\
  (forall parsed, ~ In k (map fst parsed) ->
     obj_get k (loadSettings (SetParsed parsed)) = obj_get k DEFAULT_SETTINGS).
Proof.
  intros k Hk.
  assert (Hm : u "maxTokens" <> k)
    by (intros <-; destruct Hk as [H|[H|[H|[]]]]; vm_compute in H; discriminate).
  assert (Ht : u "temperature" <> k)
    by (intros <-; destruct Hk as [H|[H|[H|[]]]]; vm_compute in H; discriminate).
  split; [|split].
  - destruct Hk as [<-|[<-|[<-|[]]]]; reflexivity.
  - destruct Hk as [<-|[<-|[<-|[]]]]; reflexivity.
  - intros parsed Hn. unfold loadSettings. cbv zeta.
    rewrite !obj_get_set_other by assumption.
    now apply spread_get_absent.
Qed.

Lemma X22_witness :
  obj_get (u "modelId") (loadSettings SetCorrupt) = obj_get (u "modelId") DEFAULT_SETTINGS /\
  obj_get (u "modelId") (loadSettings (SetParsed [(u "apiBaseUrl", JStr (u "http://h"))])) =
    obj_get (u "modelId") DEFAULT_SETTINGS.
Proof.
  destruct (X22_loadSettings_defaults (u "modelId") (or_intror (or_introl eq_refl)))
    as (_ & Hc & Hp).
  split; [exact Hc|]. apply Hp. simpl. intros [H | []]. discriminate.
Defined.

Lemma bold_close_len acc r inner rest :
  bold_close acc r = Some (inner, rest) ->
  (List.length inner + List.length rest + 2 = List.length acc + List.length r)%nat.
Proof.
  revert acc; induction r as [|a t IH]; intros acc H; [discriminate|].
  destruct t as [|b r']; [discriminate|].
  change (bold_close acc (a :: b :: r')) with
    (if (a =? 42) && (b =? 42) then Some (acc, r')
     else if is_lt a then None else bold_close (acc ++ [a]) (b :: r')) in H.
  destruct ((a =? 42) && (b =? 42)).
  - inversion H; subst. simpl. lia.
  - destruct (is_lt a); [discriminate|]. apply IH in H. rewrite length_app in H.
    simpl in *. lia.
Qed.

Lemma code_close_len acc r inner rest :
  code_close acc r = Some (inner, rest) ->
  (List.length inner + List.length rest + 1 = List.length acc + List.length r)%nat.
Proof.
  revert acc; induction r as [|c t IH]; intros acc H; [discriminate|].
  simpl in H. destruct (c =? 96).
  - inversion H; subst. simpl. lia.
  - apply IH in H. rewrite length_app in H. simpl in *. lia.
Qed.

Lemma strip_bold_len f s : (List.length (strip_bold f s) <= List.length s)%nat.
Proof.
  revert s; induction f as [|f IH]; intro s; [simpl; lia|].
  destruct s as [|a t]; [simpl; lia|].
  assert (Hskip : (List.length (a :: strip_bold f t) <= List.length (a :: t))%nat)
    by (simpl; specialize (IH t); lia).
  change (strip_bold (S f) (a :: t)) with
    (let skip := a :: strip_bold f t in
     if a =? 42 then
       match t with
       | b :: r =>
           if b =? 42 then
             match r with
             | c :: r1 =>
                 if is_lt c then skip
                 else match bold_close [c] r1 with
                      | Some (inner, rest) => inner ++ strip_bold f rest
                      | None => skip
                      end
             | [] => skip
             end
           else skip
       | [] => skip
       end
     else skip).
  cbv zeta.
  destruct (a =? 42); [|exact Hskip].
  destruct t as [|b r]; [exact Hskip|].
  destruct (b =? 42); [|exact Hskip].
  destruct r as [|c r1]; [exact Hskip|].
  destruct (is_lt c); [exact Hskip|].
  destruct (bold_close [c] r1) as [[inner rest]|] eqn:E; [|exact Hskip].
  apply bold_close_len in E. rewrite length_app. specialize (IH rest). simpl in *. lia.
Qed.

Lemma strip_code_len f s : (List.length (strip_code f s) <= List.length s)%nat.
Proof.
  revert s; induction f as [|f IH]; intro s; [simpl; lia|].
  destruct s as [|a t]; [simpl; lia|].
  assert (Hskip : (List.length (a :: strip_code f t) <= List.length (a :: t))%nat)
    by (simpl; specialize (IH t); lia).
  change (strip_code (S f) (a :: t)) with
    (let skip := a :: strip_code f t in
     if a =? 96 then
       match code_close [] t with
       | Some (inner, rest) => if is_empty inner then skip else inner ++ strip_code f rest
       | None => skip
       end
     else skip).
  cbv zeta.
  destruct (a =? 96); [|exact Hskip].
  destruct (code_close [] t) as [[inner rest]|] eqn:E; [|exact Hskip].
  destruct (is_empty inner); [exact Hskip|].
  apply code_close_len in E. rewrite length_app. specialize (IH rest). simpl in *. lia.
Qed.

(** X23 ([stripInlineMarkdown]): removing inline markup never makes a
    text longer, so every cell and paragraph is at most as long as its
    source. *)
Theorem X23_strip_inline_shorter : forall s,
  (List.length (stripInlineMarkdown s) <= List.length s)%nat.
Proof.
  intro s. unfold stripInlineMarkdown. cbv zeta.
  pose proof (strip_bold_len (List.length s) s).
  pose proof (strip_code_len (List.length (strip_bold (List.length s) s))
                             (strip_bold (List.length s) s)).
  lia.
Qed.
